(** * TolopaniSign: the capture/session state machine of [App] and the
      inference wrappers of [services/geminiService].

    The React component keeps six state cells and three refs; its callbacks
    run on one cooperative thread and are cut at every [await].  Each
    callback is embedded as a state-passing action on a [World] record, one
    action for the synchronous part up to the [await] and one for the
    continuation, which receives the outcome of the awaited call.  Calls
    into the browser and the inference gateway are recorded in an effect
    log, in call order. *)

From Stdlib Require Import List Arith NArith Bool Ascii String Lia.
Import ListNotations.

Local Open Scope N_scope.

(** ** JavaScript strings *)

(** A JavaScript string is a sequence of UTF-16 code units. *)
Definition jsstring := list N.

(** ASCII literals of the source. *)
Definition js (s : string) : jsstring :=
  List.map N_of_ascii (list_ascii_of_string s).

(** Truthiness of a string: [if (s)] holds exactly for the non-empty ones. *)
Definition truthy (s : jsstring) : bool :=
  match s with
  | [] => false
  | _ :: _ => true
  end.

(** [x ?? ''] *)
Definition or_empty (x : option jsstring) : jsstring :=
  match x with
  | Some s => s
  | None => []
  end.

(** Truthiness of [process.env.API_KEY], a string or undefined. *)
Definition truthy_opt (x : option jsstring) : bool := truthy (or_empty x).

(** Truthiness of a timer handle: [if (captureInterval.current)]. *)
Definition truthy_num (n : N) : bool := negb (n =? 0).

(** ECMAScript WhiteSpace and LineTerminator code points, the ones
    [String.prototype.trim] strips.  All of them lie in the basic plane, so
    the test is on single code units. *)
Definition is_white (c : N) : bool :=
  ((9 <=? c) && (c <=? 13))        (* TAB, LF, VT, FF, CR *)
  || (c =? 32)                     (* SPACE *)
  || (c =? 160)                    (* NO-BREAK SPACE *)
  || (c =? 5760)                   (* OGHAM SPACE MARK *)
  || ((8192 <=? c) && (c <=? 8202))(* EN QUAD .. HAIR SPACE *)
  || (c =? 8232) || (c =? 8233)    (* LINE / PARAGRAPH SEPARATOR *)
  || (c =? 8239) || (c =? 8287)    (* NARROW NBSP, MEDIUM MATH SPACE *)
  || (c =? 12288)                  (* IDEOGRAPHIC SPACE *)
  || (c =? 65279).                 (* ZERO WIDTH NO-BREAK SPACE *)

Fixpoint trimStart (s : jsstring) : jsstring :=
  match s with
  | [] => []
  | c :: s' => if is_white c then trimStart s' else s
  end.

Definition trimEnd (s : jsstring) : jsstring := rev (trimStart (rev s)).

Definition trim (s : jsstring) : jsstring := trimEnd (trimStart s).

(** [phrases.join(' ')] *)
Fixpoint join (sep : jsstring) (l : list jsstring) : jsstring :=
  match l with
  | [] => []
  | [x] => x
  | x :: tl => x ++ sep ++ join sep tl
  end.

(** A lower-casing that only maps [A-Z]; used to run the machine on
    concrete ASCII inputs.  The development itself is parametric in
    [toLowerCase]. *)
Definition ascii_toLowerCase (s : jsstring) : jsstring :=
  List.map (fun c => if (65 <=? c) && (c <=? 90) then c + 32 else c) s.

Definition jsstring_eqb (a b : jsstring) : bool :=
  if list_eq_dec N.eq_dec a b then true else false.

(** ** The data of the component *)

Inductive Status :=
  IDLE | STARTING | TRANSLATING | CAPTURING | STOPPING | ERROR.

(** A [MediaStream] is known by the ids of its tracks. *)
Definition MediaStream := list N.

(** The part of the [<video>] element the callbacks touch. *)
Record Video := mkVideo {
  srcObject : option MediaStream;
  oncanplay_set : bool            (* [videoRef.current.oncanplay] assigned *)
}.

(** The hidden [<canvas>]; [getContext('2d')] may answer null. *)
Record Canvas := mkCanvas {
  context2d : bool
}.

(** What is sent to [geminiAI.models.generateContent]. *)
Inductive Request :=
| ImageRequest (data prompt : jsstring)
| TextRequest (prompt : jsstring).

(** Calls that leave the component. *)
Inductive Effect :=
| GetUserMedia                      (* navigator.mediaDevices.getUserMedia *)
| VideoPlay                         (* videoRef.current.play() *)
| SetInterval (id ms : N)           (* window.setInterval(cb, ms) = id *)
| ClearInterval (id : N)
| TrackStop (track : N)             (* track.stop() *)
| GenerateContent (req : Request)   (* the gateway call *)
| ConsoleError (label : jsstring).

Record World := mkWorld {
  (* useState cells *)
  isTranslating : bool;
  translatedPhrases : list jsstring;
  summary : option jsstring;
  isSummarizing : bool;
  status : Status;
  error : option jsstring;
  (* useRef cells; [None] is a null [current] *)
  videoRef : option Video;
  canvasRef : option Canvas;
  captureInterval : option N;
  (* [let ai] of the service module: created or still null *)
  ai : bool;
  (* calls made so far, oldest first *)
  effects : list Effect
}.

(** The component right after its first render. *)
Definition initial_world (video : option unit) (canvas : option Canvas) : World :=
  {| isTranslating := false;
     translatedPhrases := [];
     summary := None;
     isSummarizing := false;
     status := IDLE;
     error := None;
     videoRef := option_map (fun _ => mkVideo None false) video;
     canvasRef := canvas;
     captureInterval := None;
     ai := false;
     effects := [] |}.

(** ** Actions *)

Definition Act (A : Type) : Type := World -> A * World.

Definition ret {A} (a : A) : Act A := fun w => (a, w).

Definition bind {A B} (m : Act A) (k : A -> Act B) : Act B :=
  fun w => let r := m w in k (fst r) (snd r).

Definition gets {A} (f : World -> A) : Act A := fun w => (f w, w).

Definition exec {A} (m : Act A) (w : World) : World := snd (m w).

Declare Scope act_scope.
Delimit Scope act_scope with act.
Notation "x <- m ;; k" := (bind m (fun x => k))
  (at level 61, m at next level, right associativity) : act_scope.
Notation "m ;; k" := (bind m (fun _ => k))
  (at level 61, right associativity) : act_scope.
Local Open Scope act_scope.

Definition when (b : bool) (m : Act unit) : Act unit :=
  if b then m else ret tt.

Fixpoint forEach {A} (l : list A) (f : A -> Act unit) : Act unit :=
  match l with
  | [] => ret tt
  | x :: tl => f x ;; forEach tl f
  end.

(** The setters.  React applies queued updates in order, so within one
    callback run the last write to a cell wins; writing through is the same
    for everything read after the run. *)
Definition setIsTranslating (v : bool) : Act unit := fun w =>
  (tt, mkWorld v (translatedPhrases w) (summary w) (isSummarizing w)
         (status w) (error w) (videoRef w) (canvasRef w)
         (captureInterval w) (ai w) (effects w)).

Definition setTranslatedPhrases (f : list jsstring -> list jsstring) : Act unit :=
  fun w =>
  (tt, mkWorld (isTranslating w) (f (translatedPhrases w)) (summary w)
         (isSummarizing w) (status w) (error w) (videoRef w) (canvasRef w)
         (captureInterval w) (ai w) (effects w)).

Definition setSummary (v : option jsstring) : Act unit := fun w =>
  (tt, mkWorld (isTranslating w) (translatedPhrases w) v (isSummarizing w)
         (status w) (error w) (videoRef w) (canvasRef w)
         (captureInterval w) (ai w) (effects w)).

Definition setIsSummarizing (v : bool) : Act unit := fun w =>
  (tt, mkWorld (isTranslating w) (translatedPhrases w) (summary w) v
         (status w) (error w) (videoRef w) (canvasRef w)
         (captureInterval w) (ai w) (effects w)).

Definition setStatus (v : Status) : Act unit := fun w =>
  (tt, mkWorld (isTranslating w) (translatedPhrases w) (summary w)
         (isSummarizing w) v (error w) (videoRef w) (canvasRef w)
         (captureInterval w) (ai w) (effects w)).

Definition setError (v : option jsstring) : Act unit := fun w =>
  (tt, mkWorld (isTranslating w) (translatedPhrases w) (summary w)
         (isSummarizing w) (status w) v (videoRef w) (canvasRef w)
         (captureInterval w) (ai w) (effects w)).

Definition setVideo (v : option Video) : Act unit := fun w =>
  (tt, mkWorld (isTranslating w) (translatedPhrases w) (summary w)
         (isSummarizing w) (status w) (error w) v (canvasRef w)
         (captureInterval w) (ai w) (effects w)).

Definition setCaptureInterval (v : option N) : Act unit := fun w =>
  (tt, mkWorld (isTranslating w) (translatedPhrases w) (summary w)
         (isSummarizing w) (status w) (error w) (videoRef w) (canvasRef w)
         v (ai w) (effects w)).

Definition setAI (v : bool) : Act unit := fun w =>
  (tt, mkWorld (isTranslating w) (translatedPhrases w) (summary w)
         (isSummarizing w) (status w) (error w) (videoRef w) (canvasRef w)
         (captureInterval w) v (effects w)).

Definition emit (e : Effect) : Act unit := fun w =>
  (tt, mkWorld (isTranslating w) (translatedPhrases w) (summary w)
         (isSummarizing w) (status w) (error w) (videoRef w) (canvasRef w)
         (captureInterval w) (ai w) (effects w ++ [e])).

(** The stream bound to the video element, if any. *)
Definition held_stream (w : World) : option MediaStream :=
  match videoRef w with
  | Some v => srcObject v
  | None => None
  end.

(** ** Promises *)

(** A thrown value: [instanceof Error], and the [name] and [message] of an
    [Error]. *)
Record Thrown := mkThrown {
  instanceofError : bool;
  name : jsstring;
  message : jsstring
}.

(** [new Error(msg)] *)
Definition Error_ (msg : jsstring) : Thrown := mkThrown true (js "Error") msg.

(** How an awaited promise settles. *)
Inductive Settled (A : Type) :=
| Fulfilled (a : A)
| Rejected (reason : Thrown).
Arguments Fulfilled {A} a.
Arguments Rejected {A} reason.

(** ** The messages of the source *)

Definition MSG_NO_KEY : jsstring :=
  js "Kunci API Gemini tidak ditemukan. Harap atur variabel lingkungan API_KEY.".
Definition MSG_TRANSLATE_FAILED : jsstring :=
  js "Gagal menerjemahkan. Silakan coba lagi.".
Definition MSG_CAMERA_FAILED : jsstring :=
  js "Gagal mengakses kamera.".
Definition MSG_CAMERA_DENIED : jsstring :=
  js "Izin kamera ditolak. Harap izinkan akses kamera di pengaturan browser Anda.".
Definition MSG_SUMMARY_FAILED : jsstring :=
  js "Gagal membuat kesimpulan. Silakan coba lagi.".

Definition TRANSLATE_PROMPT : jsstring :=
  js "Terjemahkan gestur bahasa isyarat Indonesia dalam gambar ini ke dalam teks Bahasa Indonesia. Berikan hanya teks terjemahannya, tanpa penjelasan tambahan. Jika isyarat tidak jelas, kembalikan string kosong.".

(** The template of [summarizeText]; 34 is the double quote. *)
Definition SUMMARIZE_PROMPT (textToSummarize : jsstring) : jsstring :=
  js "Dari kumpulan kata hasil terjemahan bahasa isyarat berikut: "
  ++ [34] ++ textToSummarize ++ [34]
  ++ js ", rangkailah menjadi satu kalimat yang utuh dan paling masuk akal dalam Bahasa Indonesia. Berikan hanya kalimat lengkapnya.".

(** ** The program *)

Section Machine.

(** [String.prototype.toLowerCase], left abstract: it follows the Unicode
    case tables. *)
Variable toLowerCase : jsstring -> jsstring.

(** [process.env.API_KEY], fixed when the bundle is built. *)
Variable API_KEY : option jsstring.

(** *** services/geminiService *)

(** [getAI]: creates the client on first use; throws without a key. *)
Definition getAI : Act (Settled unit) :=
  created <- gets ai ;;
  if negb created then
    if negb (truthy_opt API_KEY) then
      ret (Rejected (Error_ (js "API_KEY is not set in environment variables.")))
    else
      setAI true ;; ret (Fulfilled tt)
  else ret (Fulfilled tt).

(** [translateImageToText] up to its [await]: [inl] when [getAI] threw (the
    promise is already rejected), [inr] when the request is on its way. *)
Definition translateImageToText (base64ImageData : jsstring)
  : Act (Thrown + unit) :=
  geminiAI <- getAI ;;
  match geminiAI with
  | Rejected e => ret (inl e)
  | Fulfilled _ =>
      emit (GenerateContent (ImageRequest base64ImageData TRANSLATE_PROMPT)) ;;
      ret (inr tt)
  end.

(** The rest of [translateImageToText], given how [generateContent]
    settled; a fulfilled response carries [response.text]. *)
Definition translateImageToText_resume (response : Settled (option jsstring))
  : Act (Settled jsstring) :=
  match response with
  | Fulfilled text_ => ret (Fulfilled (trim (or_empty text_)))
  | Rejected _ =>
      emit (ConsoleError (js "Error calling Gemini API:")) ;;
      ret (Rejected (Error_ (js "Failed to get translation from Gemini API.")))
  end.

Definition summarizeText (phrases : list jsstring) : Act (Thrown + unit) :=
  geminiAI <- getAI ;;
  match geminiAI with
  | Rejected e => ret (inl e)
  | Fulfilled _ =>
      let textToSummarize := join [32] phrases in
      emit (GenerateContent (TextRequest (SUMMARIZE_PROMPT textToSummarize))) ;;
      ret (inr tt)
  end.

Definition summarizeText_resume (response : Settled (option jsstring))
  : Act (Settled jsstring) :=
  match response with
  | Fulfilled text_ => ret (Fulfilled (trim (or_empty text_)))
  | Rejected _ =>
      emit (ConsoleError (js "Error calling Gemini API for summarization:")) ;;
      ret (Rejected (Error_ (js "Failed to get summary from Gemini API.")))
  end.

(** *** App *)

(** What a callback is suspended on when it returns to the event loop. *)
Inductive Pending :=
| AwaitGetUserMedia
| AwaitTranslate
| AwaitSummarize.

Definition stopTranslationSession : Act unit :=
  setStatus STOPPING ;;
  (interval <- gets captureInterval ;;
   match interval with
   | Some id =>
       when (truthy_num id)
         (emit (ClearInterval id) ;; setCaptureInterval None)
   | None => ret tt
   end) ;;
  (video <- gets videoRef ;;
   match video with
   | Some v =>
       match srcObject v with
       | Some stream =>
           forEach stream (fun track => emit (TrackStop track)) ;;
           setVideo (Some (mkVideo None (oncanplay_set v)))
       | None => ret tt
       end
   | None => ret tt
   end) ;;
  setIsTranslating false ;;
  setStatus IDLE.

(** The updater handed to [setTranslatedPhrases] by a tick. *)
Definition appendPhrase (result : jsstring) (prev : list jsstring)
  : list jsstring :=
  if Nat.eqb (List.length prev) 0
     || negb (jsstring_eqb (toLowerCase (last prev [])) (toLowerCase result))
  then prev ++ [result]
  else prev.

(** The interval callback after [await translateImageToText(...)]:
    the [try] body, the [catch] and the [finally]. *)
Definition captureTick_resume (r : Settled jsstring) : Act unit :=
  (match r with
   | Fulfilled result =>
       when (truthy result) (setTranslatedPhrases (appendPhrase result))
   | Rejected apiError =>
       emit (ConsoleError (js "Gemini API Error:")) ;;
       setError (Some MSG_TRANSLATE_FAILED) ;;
       stopTranslationSession
   end) ;;
  setStatus CAPTURING.

(** The interval callback up to its [await]; [base64ImageData] is what the
    canvas encodes for the current frame. *)
Definition captureTick (base64ImageData : jsstring) : Act (option Pending) :=
  video <- gets videoRef ;;
  canvas <- gets canvasRef ;;
  match video, canvas with
  | Some _, Some cv =>
      if context2d cv then
        setStatus TRANSLATING ;;
        call <- translateImageToText base64ImageData ;;
        match call with
        | inl e => captureTick_resume (Rejected e) ;; ret None
        | inr _ => ret (Some AwaitTranslate)
        end
      else ret None
  | _, _ => ret None
  end.

(** [videoRef.current.oncanplay]; [id] is the handle [setInterval] gives,
    6000 its period in milliseconds. *)
Definition oncanplay (id : N) : Act unit :=
  (video <- gets videoRef ;;
   match video with
   | Some _ => emit VideoPlay
   | None => ret tt
   end) ;;
  emit (SetInterval id 6000) ;;
  setCaptureInterval (Some id).

Definition startTranslationSession : Act (option Pending) :=
  if negb (truthy_opt API_KEY) then
    setError (Some MSG_NO_KEY) ;;
    setStatus ERROR ;;
    ret None
  else
    setError None ;;
    setTranslatedPhrases (fun _ => []) ;;
    setSummary None ;;
    setIsTranslating true ;;
    setStatus STARTING ;;
    emit GetUserMedia ;;
    ret (Some AwaitGetUserMedia).

(** After [await getUserMedia(...)]: the rest of the [try], or the
    [catch]. *)
Definition startTranslationSession_resume (r : Settled MediaStream) : Act unit :=
  match r with
  | Fulfilled stream =>
      video <- gets videoRef ;;
      match video with
      | Some _ => setVideo (Some (mkVideo (Some stream) true))
      | None => ret tt
      end
  | Rejected err =>
      emit (ConsoleError (js "Camera Error:")) ;;
      let errorMessage :=
        if instanceofError err && jsstring_eqb (name err) (js "NotAllowedError")
        then MSG_CAMERA_DENIED
        else MSG_CAMERA_FAILED in
      setError (Some errorMessage) ;;
      setStatus ERROR ;;
      setIsTranslating false
  end.

Definition handleToggleTranslation : Act (option Pending) :=
  active <- gets isTranslating ;;
  if active then stopTranslationSession ;; ret None
  else startTranslationSession.

(** [handleSummarize] after [await summarizeText(...)]. *)
Definition handleSummarize_resume (r : Settled jsstring) : Act unit :=
  (match r with
   | Fulfilled result => setSummary (Some result)
   | Rejected err =>
       setError (Some MSG_SUMMARY_FAILED) ;;
       emit (ConsoleError (js "Summarization Error:"))
   end) ;;
  setIsSummarizing false.

Definition handleSummarize : Act (option Pending) :=
  phrases <- gets translatedPhrases ;;
  if Nat.ltb (List.length phrases) 2 then ret None
  else
    setIsSummarizing true ;;
    setError None ;;
    setSummary None ;;
    call <- summarizeText phrases ;;
    match call with
    | inl e => handleSummarize_resume (Rejected e) ;; ret None
    | inr _ => ret (Some AwaitSummarize)
    end.

(** *** The event loop *)

(** One task of the event loop: a user command, a browser callback, or the
    settling of an awaited call. *)
Inductive Event :=
| EvStart                                        (* start command *)
| EvStop                                         (* stop command *)
| EvToggle                                       (* the toggle button *)
| EvCamera (r : Settled MediaStream)             (* getUserMedia settles *)
| EvCanPlay (id : N)                             (* the video can play *)
| EvInterval (base64ImageData : jsstring)        (* the timer fires *)
| EvTranslated (response : Settled (option jsstring))
| EvSummarize                                    (* summarize command *)
| EvSummarized (response : Settled (option jsstring)).

Definition step (e : Event) (w : World) : World :=
  match e with
  | EvStart => exec startTranslationSession w
  | EvStop => exec stopTranslationSession w
  | EvToggle => exec handleToggleTranslation w
  | EvCamera r => exec (startTranslationSession_resume r) w
  | EvCanPlay id =>
      match videoRef w with
      | Some v => if oncanplay_set v then exec (oncanplay id) w else w
      | None => w
      end
  | EvInterval data => exec (captureTick data) w
  | EvTranslated response =>
      exec (r <- translateImageToText_resume response ;; captureTick_resume r) w
  | EvSummarize => exec handleSummarize w
  | EvSummarized response =>
      exec (r <- summarizeText_resume response ;; handleSummarize_resume r) w
  end.

Definition run (es : list Event) (w : World) : World :=
  fold_left (fun w e => step e w) es w.

(** The results [R] of successive translation calls, handed one after the
    other to the continuation of the tick that awaited them. *)
Definition deliver (R : list jsstring) (w : World) : World :=
  fold_left (fun w r => exec (captureTick_resume (Fulfilled r)) w) R w.

(** *** Whole calls

    A command or a tick from its first statement to its last, given how
    the call it awaits settles (the outcome is ignored when the callback
    returns before awaiting). *)

Definition start (camera : Settled MediaStream) : Act unit :=
  p <- startTranslationSession ;;
  match p with
  | Some _ => startTranslationSession_resume camera
  | None => ret tt
  end.

Definition tick (base64ImageData : jsstring)
    (response : Settled (option jsstring)) : Act unit :=
  p <- captureTick base64ImageData ;;
  match p with
  | Some _ => r <- translateImageToText_resume response ;; captureTick_resume r
  | None => ret tt
  end.

Definition summarize (response : Settled (option jsstring)) : Act unit :=
  p <- handleSummarize ;;
  match p with
  | Some _ => r <- summarizeText_resume response ;; handleSummarize_resume r
  | None => ret tt
  end.

(** The worlds the component can be in. *)
Inductive reachable : World -> Prop :=
| reachable_init video canvas : reachable (initial_world video canvas)
| reachable_step e w : reachable w -> reachable (step e w).

End Machine.

(** ** Derived notions used in the statements *)

(** A stored phrase as the component wants it: not empty, and neither its
    first nor its last code unit is white space. *)
Definition trimmed (p : jsstring) : bool :=
  match p with
  | [] => false
  | c :: _ => negb (is_white c) && negb (is_white (last p 0))
  end.

(** What [stopTranslationSession] leaves in the two refs, and what it calls. *)
Definition stopped_interval (w : World) : option N :=
  match captureInterval w with
  | Some id => if truthy_num id then None else Some id
  | None => None
  end.

Definition stopped_video (w : World) : option Video :=
  match videoRef w with
  | Some v => Some (mkVideo None (oncanplay_set v))
  | None => None
  end.

Definition stop_calls (w : World) : list Effect :=
  match captureInterval w with
  | Some id => if truthy_num id then [ClearInterval id] else []
  | None => []
  end ++
  match held_stream w with
  | Some stream => List.map TrackStop stream
  | None => []
  end.

(** The only period a timer may be armed with. *)
Definition period_ok (e : Effect) : Prop :=
  match e with
  | SetInterval _ ms => ms = 6000
  | _ => True
  end.

(** How often a track was stopped. *)
Definition times_stopped (track : N) (log : list Effect) : nat :=
  List.length
    (filter (fun e => match e with
                      | TrackStop t => t =? track
                      | _ => false
                      end) log).

(** How often the camera was asked for, and the gateway called. *)
Definition camera_requests (log : list Effect) : nat :=
  List.length
    (filter (fun e => match e with GetUserMedia => true | _ => false end) log).

Definition gateway_calls (log : list Effect) : nat :=
  List.length
    (filter (fun e => match e with GenerateContent _ => true | _ => false end)
       log).

(** The tasks that open a session, and those of the summarize command. *)
Definition opens_session (e : Event) (w : World) : bool :=
  match e with
  | EvStart => true
  | EvToggle => negb (isTranslating w)
  | _ => false
  end.

Definition summarizes (e : Event) : bool :=
  match e with
  | EvSummarize | EvSummarized _ => true
  | _ => false
  end.

Section Specification.

Variable toLowerCase : jsstring -> jsstring.

(** The specification's reading of the accumulation, written from its
    words and not from the code: drop the empty strings, then keep of every
    maximal run of neighbours that are equal up to case its first member. *)
Definition same_ignoring_case (a b : jsstring) : bool :=
  jsstring_eqb (toLowerCase a) (toLowerCase b).

Fixpoint collapse_after (prev : jsstring) (l : list jsstring) : list jsstring :=
  match l with
  | [] => []
  | x :: tl =>
      if same_ignoring_case prev x then collapse_after x tl
      else x :: collapse_after x tl
  end.

Definition collapse (l : list jsstring) : list jsstring :=
  match l with
  | [] => []
  | x :: tl => x :: collapse_after x tl
  end.

Definition spec_phrases (R : list jsstring) : list jsstring :=
  collapse (filter truthy R).

(** No two neighbours are equal up to case. *)
Fixpoint no_adjacent_duplicates (l : list jsstring) : Prop :=
  match l with
  | [] => True
  | x :: tl =>
      match tl with
      | [] => True
      | y :: _ => toLowerCase x <> toLowerCase y
      end /\ no_adjacent_duplicates tl
  end.

(** The results [translateImageToText] resolved with, in order of arrival. *)
Definition delivered (es : list Event) : list jsstring :=
  flat_map (fun e =>
              match e with
              | EvTranslated (Fulfilled text_) => [trim (or_empty text_)]
              | _ => []
              end) es.

(** No new session begins: neither a start command nor the toggle button. *)
Definition within_session (es : list Event) : bool :=
  forallb (fun e =>
             match e with
             | EvStart | EvToggle => false
             | _ => true
             end) es.

(** What one delivered result does to the sequence: the body of the [try]
    of the interval callback. *)
Definition accumulate (prev : list jsstring) (result : jsstring)
  : list jsstring :=
  if truthy result then appendPhrase toLowerCase result prev else prev.

End Specification.

(** ** Concrete inputs, for running the machine *)

Module Sample.

Definition KEY : option jsstring := Some (js "test-key").

(** Both elements mounted, a 2d context available, nothing started yet. *)
Definition mounted : World := initial_world (Some tt) (Some (mkCanvas true)).

Definition frame : jsstring := js "/9j/4AAQSkZJRg".

Definition camera : MediaStream := [1].

Definition says (s : string) : Event := EvTranslated (Fulfilled (Some (js s))).

Definition gateway_down : Thrown := Error_ (js "503").

(** Camera granted, video playing, timer armed with handle 1. *)
Definition go_live : list Event :=
  [EvCamera (Fulfilled camera); EvCanPlay 1].

(** The example of the specification: "Halo", "halo", "", "Selamat". *)
Definition halo_session : list Event :=
  go_live ++
  [EvInterval frame; says "Halo"; EvInterval frame; says "halo";
   EvInterval frame; says ""; EvInterval frame; says "Selamat"].

(** Two phrases stored, then a summary obtained. *)
Definition summarized : World :=
  run ascii_toLowerCase KEY
    (EvStart :: halo_session ++
     [EvSummarize; EvSummarized (Fulfilled (Some (js "Halo, selamat.")))])
    mounted.

(** The same session, stopped by the user after the summary. *)
Definition finished : World := step ascii_toLowerCase KEY EvStop summarized.

(** A live session between two ticks. *)
Definition live : World :=
  run ascii_toLowerCase KEY (EvStart :: go_live) mounted.

(** A session that was stopped by the user. *)
Definition stopped : World :=
  run ascii_toLowerCase KEY (EvStart :: halo_session ++ [EvStop]) mounted.

End Sample.

(** ** services/cache

    [const cache = new Map<string, string>()]: a JavaScript [Map] keeps one
    entry per key, in insertion order; [set] on a key already present
    replaces the value where the entry stands, [set] on a new key appends;
    [get] answers undefined, here [None], for a key that is absent. *)

Definition Cache := list (jsstring * jsstring).

(** The map of a freshly loaded module. *)
Definition cache : Cache := [].

Fixpoint getFromCache (key : jsstring) (c : Cache) : option jsstring :=
  match c with
  | [] => None
  | (k, v) :: tl => if jsstring_eqb k key then Some v else getFromCache key tl
  end.

Fixpoint setInCache (key value : jsstring) (c : Cache) : Cache :=
  match c with
  | [] => [(key, value)]
  | (k, v) :: tl =>
      if jsstring_eqb k key then (key, value) :: tl
      else (k, v) :: setInCache key value tl
  end.

(** ** What the rendering reads

    The [disabled] attribute of the toggle button:
    [status === 'STARTING' || status === 'STOPPING']. *)
Definition toggle_disabled (w : World) : bool :=
  match status w with
  | STARTING | STOPPING => true
  | _ => false
  end.

(** The [disabled] attribute of the summarize button:
    [translatedPhrases.length < 2 || isSummarizing]. *)
Definition summarize_disabled (w : World) : bool :=
  Nat.ltb (List.length (translatedPhrases w)) 2 || isSummarizing w.

(** ** Counting tasks *)

(** The tasks that can reach the gateway: a firing of the timer and the
    summarize command. *)
Definition gateway_tasks (es : list Event) : nat :=
  List.length
    (filter (fun e => match e with
                      | EvInterval _ | EvSummarize => true
                      | _ => false
                      end) es).

(** The tasks that can ask for the camera: the start command and the
    toggle button. *)
Definition start_tasks (es : list Event) : nat :=
  List.length
    (filter (fun e => match e with
                      | EvStart | EvToggle => true
                      | _ => false
                      end) es).

(** Only the camera being granted and the video becoming playable. *)
Definition settling (es : list Event) : bool :=
  forallb (fun e =>
             match e with
             | EvCamera (Fulfilled _) | EvCanPlay _ => true
             | _ => false
             end) es.

(** ** Facts about strings *)

Lemma jsstring_eqb_eq a b : jsstring_eqb a b = true <-> a = b.
Proof.
  unfold jsstring_eqb. destruct (list_eq_dec N.eq_dec a b); split; congruence.
Qed.

Lemma jsstring_eqb_neq a b : jsstring_eqb a b = false <-> a <> b.
Proof.
  unfold jsstring_eqb. destruct (list_eq_dec N.eq_dec a b); split; congruence.
Qed.

Lemma trimStart_white s : forallb is_white s = true -> trimStart s = [].
Proof.
  induction s as [|c s IH]; simpl; [reflexivity|].
  intros H. apply andb_true_iff in H as [Hc Hs]. rewrite Hc. auto.
Qed.

Lemma trimStart_hd s c r : trimStart s = c :: r -> is_white c = false.
Proof.
  induction s as [|d s IH]; simpl; [discriminate|].
  destruct (is_white d) eqn:Hd; [exact IH|].
  intros E. injection E as -> _. exact Hd.
Qed.

Lemma trimStart_snoc s c :
  is_white c = false -> exists r, trimStart (s ++ [c]) = r ++ [c].
Proof.
  intros Hc. induction s as [|d s [r IH]]; simpl.
  - rewrite Hc. exists []. reflexivity.
  - destruct (is_white d).
    + exists r. exact IH.
    + exists (d :: s). reflexivity.
Qed.

Lemma trim_white s : forallb is_white s = true -> trim s = [].
Proof.
  intros H. unfold trim, trimEnd. rewrite (trimStart_white s H). reflexivity.
Qed.

Lemma trimmed_cons c m :
  is_white c = false -> is_white (last (c :: m) 0) = false ->
  trimmed (c :: m) = true.
Proof. unfold trimmed. intros -> ->. reflexivity. Qed.

Lemma trim_trimmed s : truthy (trim s) = true -> trimmed (trim s) = true.
Proof.
  unfold trim, trimEnd.
  destruct (trimStart s) as [|c r] eqn:E1; [discriminate|].
  pose proof (trimStart_hd _ _ _ E1) as Hc.
  simpl rev.
  destruct (trimStart_snoc (rev r) c Hc) as [r' E2]. rewrite E2.
  rewrite rev_app_distr. simpl rev. simpl app. intros _.
  apply trimmed_cons; [exact Hc|].
  destruct r' as [|e r'']; [exact Hc|].
  (* the last unit kept is the first one the backward scan stopped at *)
  simpl rev. rewrite app_comm_cons, last_last.
  exact (trimStart_hd _ _ _ E2).
Qed.

(** ** Reading a run of an action *)

#[local] Opaque js.

Lemma forEach_emit {A} (f : A -> Effect) (l : list A) (w : World) :
  forEach l (fun x => emit (f x)) w =
  (tt, mkWorld (isTranslating w) (translatedPhrases w) (summary w)
         (isSummarizing w) (status w) (error w) (videoRef w) (canvasRef w)
         (captureInterval w) (ai w) (effects w ++ List.map f l)).
Proof.
  revert w. induction l as [|x l IH]; intros w; simpl.
  - rewrite app_nil_r. destruct w; reflexivity.
  - unfold bind, emit at 1. cbv zeta. rewrite IH. simpl.
    rewrite <- app_assoc. reflexivity.
Qed.

(** [stopTranslationSession] run on any world, in closed form. *)
Lemma stopTranslationSession_run (w : World) :
  stopTranslationSession w =
  (tt, mkWorld false (translatedPhrases w) (summary w) (isSummarizing w)
         IDLE (error w) (stopped_video w) (canvasRef w)
         (stopped_interval w) (ai w) (effects w ++ stop_calls w)).
Proof.
  unfold stopTranslationSession, stopped_video, stopped_interval, stop_calls,
    held_stream, bind, gets, when, ret.
  destruct w as [it ph su isu st er [[[stream|] oc]|] cv [id|] a ef];
    simpl; try destruct (truthy_num id); simpl;
    rewrite ?forEach_emit; simpl;
    rewrite ?app_nil_r, <- ?app_assoc; reflexivity.
Qed.

#[local] Arguments stopTranslationSession : simpl never.
#[local] Arguments Nat.ltb : simpl never.
#[local] Arguments stop_calls : simpl never.
#[local] Arguments stopped_video : simpl never.
#[local] Arguments stopped_interval : simpl never.

(** Unfold the callbacks and the setters down to records. *)
Ltac unfold_act :=
  unfold step, exec, handleToggleTranslation, startTranslationSession,
    startTranslationSession_resume, oncanplay, captureTick,
    captureTick_resume, handleSummarize, handleSummarize_resume,
    translateImageToText, translateImageToText_resume, summarizeText,
    summarizeText_resume, getAI, bind, gets, when, ret,
    setIsTranslating, setTranslatedPhrases, setSummary, setIsSummarizing,
    setStatus, setError, setVideo, setCaptureInterval, setAI, emit in *.

(** Follow every branch the code takes on the world; a call of
    [stopTranslationSession] is replaced by its closed form. *)
Ltac split_match :=
  repeat (cbn in *;
          first
            [ rewrite stopTranslationSession_run in *
            | match goal with
              | |- context [match ?x with _ => _ end] => destruct x eqn:?
              | |- context [if ?x then _ else _] => destruct x eqn:?
              end ]).

Ltac run_act := unfold_act; split_match; cbn in *.

(** ** The phrase sequence *)

Section Phrases.

Variable toLowerCase : jsstring -> jsstring.
Variable API_KEY : option jsstring.

Lemma step_translatedPhrases e w :
  translatedPhrases (step toLowerCase API_KEY e w) =
  match e with
  | EvStart =>
      if truthy_opt API_KEY then [] else translatedPhrases w
  | EvToggle =>
      if isTranslating w then translatedPhrases w
      else if truthy_opt API_KEY then [] else translatedPhrases w
  | EvTranslated (Fulfilled text_) =>
      accumulate toLowerCase (translatedPhrases w) (trim (or_empty text_))
  | _ => translatedPhrases w
  end.
Proof.
  unfold accumulate. destruct e; run_act; congruence.
Qed.

Lemma run_app es1 es2 w :
  run toLowerCase API_KEY (es1 ++ es2) w =
  run toLowerCase API_KEY es2 (run toLowerCase API_KEY es1 w).
Proof. unfold run. apply fold_left_app. Qed.

Lemma run_translatedPhrases es : forall w,
  within_session es = true ->
  translatedPhrases (run toLowerCase API_KEY es w) =
  fold_left (accumulate toLowerCase) (delivered es) (translatedPhrases w).
Proof.
  induction es as [|e es IH]; intros w H; [reflexivity|].
  simpl in H. apply andb_true_iff in H as [He Hes].
  change (run toLowerCase API_KEY (e :: es) w)
    with (run toLowerCase API_KEY es (step toLowerCase API_KEY e w)).
  rewrite (IH _ Hes), step_translatedPhrases.
  destruct e as [| | |r|id|d|[text_|reason]| |r]; try discriminate;
    reflexivity.
Qed.

Lemma same_ignoring_case_trans a b c :
  same_ignoring_case toLowerCase a b = true ->
  same_ignoring_case toLowerCase b c = same_ignoring_case toLowerCase a c.
Proof.
  unfold same_ignoring_case. intros H.
  apply jsstring_eqb_eq in H. rewrite H. reflexivity.
Qed.

(** The code compares with the last phrase it kept, the specification with
    the previous result; inside a run of duplicates the two agree. *)
Lemma accumulate_collapse_after R : forall acc x prev,
  same_ignoring_case toLowerCase x prev = true ->
  fold_left (accumulate toLowerCase) (filter truthy R) (acc ++ [x]) =
  acc ++ x :: collapse_after toLowerCase prev (filter truthy R).
Proof.
  induction R as [|r R IH]; intros acc x prev Hx; [reflexivity|].
  simpl. destruct (truthy r) eqn:Hr; [|exact (IH acc x prev Hx)].
  simpl. unfold accumulate at 2. rewrite Hr. unfold appendPhrase.
  rewrite last_last, length_app. simpl.
  replace (Nat.eqb (List.length acc + 1) 0) with false
    by (symmetry; apply Nat.eqb_neq; lia).
  simpl. fold (same_ignoring_case toLowerCase x r).
  rewrite (same_ignoring_case_trans _ _ r Hx).
  assert (Hrr : same_ignoring_case toLowerCase r r = true)
    by (apply jsstring_eqb_eq; reflexivity).
  destruct (same_ignoring_case toLowerCase x r) eqn:Hxr; simpl.
  - apply IH. exact Hxr.
  - rewrite (IH (acc ++ [x]) r r Hrr), <- app_assoc. reflexivity.
Qed.

Lemma accumulate_spec R :
  fold_left (accumulate toLowerCase) R [] = spec_phrases toLowerCase R.
Proof.
  unfold spec_phrases. induction R as [|r R IH]; [reflexivity|].
  simpl. unfold accumulate at 2. destruct (truthy r) eqn:Hr.
  - unfold appendPhrase. simpl.
    assert (E : fold_left (accumulate toLowerCase) R [r] =
                fold_left (accumulate toLowerCase) (filter truthy R)
                  ([] ++ [r])).
    { clear. simpl. generalize [r] as acc.
      induction R as [|q R IH]; intros acc; [reflexivity|].
      simpl. destruct (truthy q) eqn:Hq; simpl; [apply IH|].
      unfold accumulate at 2. rewrite Hq. apply IH. }
    rewrite E. apply (accumulate_collapse_after R [] r r).
    apply jsstring_eqb_eq. reflexivity.
  - exact IH.
Qed.

Lemma collapse_after_no_adjacent l : forall x prev,
  same_ignoring_case toLowerCase x prev = true ->
  no_adjacent_duplicates toLowerCase (x :: collapse_after toLowerCase prev l).
Proof.
  induction l as [|y l IH]; intros x prev Hx; simpl; [tauto|].
  destruct (same_ignoring_case toLowerCase prev y) eqn:Hy.
  - apply IH. rewrite <- (same_ignoring_case_trans _ _ y Hx). exact Hy.
  - split.
    + intros E. unfold same_ignoring_case in *.
      apply jsstring_eqb_eq in Hx. apply jsstring_eqb_neq in Hy. congruence.
    + apply IH. apply jsstring_eqb_eq. reflexivity.
Qed.

Lemma spec_phrases_no_adjacent R :
  no_adjacent_duplicates toLowerCase (spec_phrases toLowerCase R).
Proof.
  unfold spec_phrases, collapse. destruct (filter truthy R) as [|x l].
  - exact I.
  - apply collapse_after_no_adjacent. apply jsstring_eqb_eq. reflexivity.
Qed.

Lemma no_adjacent_snoc l r :
  no_adjacent_duplicates toLowerCase l ->
  l = [] \/ toLowerCase (last l []) <> toLowerCase r ->
  no_adjacent_duplicates toLowerCase (l ++ [r]).
Proof.
  induction l as [|x [|y tl] IH]; intros Hl Hr.
  - simpl. tauto.
  - simpl. destruct Hr as [Hr|Hr]; [discriminate|]. simpl in Hr. tauto.
  - destruct Hl as [Hxy Hl]. split; [exact Hxy|].
    apply IH; [exact Hl|]. right.
    destruct Hr as [Hr|Hr]; [discriminate|exact Hr].
Qed.

Lemma appendPhrase_no_adjacent prev result :
  no_adjacent_duplicates toLowerCase prev ->
  no_adjacent_duplicates toLowerCase (appendPhrase toLowerCase result prev).
Proof.
  intros H. unfold appendPhrase.
  destruct prev as [|x tl]; [simpl; tauto|].
  change (Nat.eqb (List.length (x :: tl)) 0) with false. cbv beta iota.
  rewrite orb_false_l.
  destruct (jsstring_eqb (toLowerCase (last (x :: tl) []))
              (toLowerCase result)) eqn:E; [exact H|].
  apply no_adjacent_snoc; [exact H|]. right.
  apply jsstring_eqb_neq. exact E.
Qed.

(** The invariant of the data model, over every world the component can
    reach, sessions that failed to start included. *)
Lemma reachable_no_adjacent_duplicates w :
  reachable toLowerCase API_KEY w ->
  no_adjacent_duplicates toLowerCase (translatedPhrases w).
Proof.
  induction 1 as [video canvas|e w Hw IH]; [exact I|].
  rewrite step_translatedPhrases.
  destruct e as [| | |r|id|d|[text_|reason]| |r]; try exact IH.
  - destruct (truthy_opt API_KEY); [exact I|exact IH].
  - destruct (isTranslating w); [exact IH|].
    destruct (truthy_opt API_KEY); [exact I|exact IH].
  - unfold accumulate. destruct (truthy _); [|exact IH].
    apply appendPhrase_no_adjacent. exact IH.
Qed.

Lemma deliver_translatedPhrases R : forall w,
  translatedPhrases (deliver toLowerCase R w) =
  fold_left (accumulate toLowerCase) R (translatedPhrases w).
Proof.
  induction R as [|r R IH]; intros w; [reflexivity|].
  change (deliver toLowerCase (r :: R) w)
    with (deliver toLowerCase R
            (exec (captureTick_resume toLowerCase (Fulfilled r)) w)).
  rewrite IH. cbn [fold_left]. f_equal. unfold accumulate.
  run_act; reflexivity.
Qed.

Lemma toggle_starts_or_stops w :
  step toLowerCase API_KEY EvToggle w =
  if isTranslating w then step toLowerCase API_KEY EvStop w
  else step toLowerCase API_KEY EvStart w.
Proof.
  unfold step, exec, handleToggleTranslation, bind, gets, ret. cbn.
  destruct (isTranslating w); reflexivity.
Qed.

(** C1.  A session is opened by a start command with a credential.
    Whatever strings [R] its translation calls then resolve with, the
    phrase sequence is [R] with the empty strings dropped and every run of
    neighbours equal up to case reduced to its first member.  The same
    holds along any tasks of the event loop that open no new session
    (camera, timer, stop, summarize, failed calls in between), for the
    results the calls delivered.  In both cases no two neighbours of the
    sequence are equal up to case. *)
Theorem session_phrases_are_collapsed_results w :
  truthy_opt API_KEY = true ->
  let w0 := step toLowerCase API_KEY EvStart w in
  (forall R,
     translatedPhrases (deliver toLowerCase R w0) = spec_phrases toLowerCase R
     /\ no_adjacent_duplicates toLowerCase
          (translatedPhrases (deliver toLowerCase R w0)))
  /\ (forall es,
        within_session es = true ->
        translatedPhrases (run toLowerCase API_KEY es w0) =
          spec_phrases toLowerCase (delivered es)
        /\ no_adjacent_duplicates toLowerCase
             (translatedPhrases (run toLowerCase API_KEY es w0))).
Proof.
  intros Hkey w0.
  assert (E0 : translatedPhrases w0 = []).
  { subst w0. rewrite step_translatedPhrases, Hkey. reflexivity. }
  split.
  - intros R.
    assert (E : translatedPhrases (deliver toLowerCase R w0) =
                spec_phrases toLowerCase R)
      by (rewrite deliver_translatedPhrases, E0; apply accumulate_spec).
    split; [exact E|]. rewrite E. apply spec_phrases_no_adjacent.
  - intros es Hes.
    assert (E : translatedPhrases (run toLowerCase API_KEY es w0) =
                spec_phrases toLowerCase (delivered es))
      by (rewrite (run_translatedPhrases es _ Hes), E0; apply accumulate_spec).
    split; [exact E|]. rewrite E. apply spec_phrases_no_adjacent.
Qed.

End Phrases.

Lemma session_phrases_are_collapsed_results_witness :
  truthy_opt Sample.KEY = true
  /\ within_session Sample.halo_session = true
  /\ translatedPhrases
       (run ascii_toLowerCase Sample.KEY Sample.halo_session
          (step ascii_toLowerCase Sample.KEY EvStart Sample.mounted))
     = spec_phrases ascii_toLowerCase (delivered Sample.halo_session)
  /\ translatedPhrases
       (deliver ascii_toLowerCase [js "Halo"; js "halo"; []; js "Selamat"]
          (step ascii_toLowerCase Sample.KEY EvStart Sample.mounted))
     = spec_phrases ascii_toLowerCase [js "Halo"; js "halo"; []; js "Selamat"].
Proof.
  assert (Hk : truthy_opt Sample.KEY = true) by reflexivity.
  assert (Hs : within_session Sample.halo_session = true) by reflexivity.
  pose proof (session_phrases_are_collapsed_results ascii_toLowerCase
                Sample.KEY Sample.mounted Hk) as [HR Hes].
  split; [exact Hk|]. split; [exact Hs|]. split.
  - exact (proj1 (Hes Sample.halo_session Hs)).
  - exact (proj1 (HR [js "Halo"; js "halo"; []; js "Selamat"])).
Defined.

(** The example of the specification, run on the code and on the
    specification's reading. *)
Example halo_session_phrases :
  translatedPhrases
    (run ascii_toLowerCase Sample.KEY (EvStart :: Sample.halo_session)
       Sample.mounted)
  = [js "Halo"; js "Selamat"]
  /\ spec_phrases ascii_toLowerCase [js "Halo"; js "halo"; []; js "Selamat"]
     = [js "Halo"; js "Selamat"].
Proof. split; vm_compute; reflexivity. Qed.

(** ** Commands *)

Section Commands.

Variable toLowerCase : jsstring -> jsstring.
Variable API_KEY : option jsstring.

(** [start] with a credential, up to the camera request. *)
Lemma startTranslationSession_with_key w :
  truthy_opt API_KEY = true ->
  startTranslationSession API_KEY w =
  (Some AwaitGetUserMedia,
   mkWorld true [] None (isSummarizing w) STARTING None (videoRef w)
     (canvasRef w) (captureInterval w) (ai w) (effects w ++ [GetUserMedia])).
Proof. intros H. unfold startTranslationSession. rewrite H. reflexivity. Qed.

(** [start] without one: the guard returns at once. *)
Lemma startTranslationSession_without_key w :
  truthy_opt API_KEY = false ->
  startTranslationSession API_KEY w =
  (None,
   mkWorld (isTranslating w) (translatedPhrases w) (summary w)
     (isSummarizing w) ERROR (Some MSG_NO_KEY) (videoRef w) (canvasRef w)
     (captureInterval w) (ai w) (effects w)).
Proof. intros H. unfold startTranslationSession. rewrite H. reflexivity. Qed.

(** *** What one task does to single cells *)

Lemma step_summary e w :
  summary (step toLowerCase API_KEY e w) =
  match e with
  | EvStart => if truthy_opt API_KEY then None else summary w
  | EvToggle =>
      if isTranslating w then summary w
      else if truthy_opt API_KEY then None else summary w
  | EvSummarize =>
      if Nat.ltb (List.length (translatedPhrases w)) 2 then summary w
      else None
  | EvSummarized (Fulfilled text_) => Some (trim (or_empty text_))
  | _ => summary w
  end.
Proof. destruct e; run_act; congruence. Qed.

Lemma step_idle_inactive e w :
  (status w = IDLE -> isTranslating w = false) ->
  status (step toLowerCase API_KEY e w) = IDLE ->
  isTranslating (step toLowerCase API_KEY e w) = false.
Proof.
  intros Hw. destruct e; run_act; intros; try congruence; auto.
Qed.

Lemma reachable_idle_inactive w :
  reachable toLowerCase API_KEY w -> status w = IDLE -> isTranslating w = false.
Proof.
  induction 1 as [video canvas|e w Hw IH]; [reflexivity|].
  apply step_idle_inactive. exact IH.
Qed.

Lemma stop_calls_period_ok w : Forall period_ok (stop_calls w).
Proof.
  unfold stop_calls. apply Forall_app. split.
  - destruct (captureInterval w) as [id|]; [|constructor].
    destruct (truthy_num id); repeat constructor.
  - destruct (held_stream w) as [stream|]; [|constructor].
    apply Forall_forall. intros e He. apply in_map_iff in He.
    destruct He as (t & <- & _). exact I.
Qed.

Lemma step_period_ok e w :
  Forall period_ok (effects w) ->
  Forall period_ok (effects (step toLowerCase API_KEY e w)).
Proof.
  intros Hw.
  destruct e; run_act;
    repeat first
      [ assumption
      | apply stop_calls_period_ok
      | apply Forall_nil
      | apply Forall_cons; [exact I || reflexivity|]
      | apply Forall_app; split ].
Qed.

Lemma reachable_period_ok w :
  reachable toLowerCase API_KEY w -> Forall period_ok (effects w).
Proof.
  induction 1 as [video canvas|e w Hw IH]; [constructor|].
  apply step_period_ok. exact IH.
Qed.

Lemma step_phrases_trimmed e w :
  Forall (fun p => trimmed p = true) (translatedPhrases w) ->
  Forall (fun p => trimmed p = true)
    (translatedPhrases (step toLowerCase API_KEY e w)).
Proof.
  intros Hw. rewrite step_translatedPhrases.
  destruct e as [| | |r|id|d|[text_|reason]| |r]; try exact Hw.
  - destruct (truthy_opt API_KEY); [constructor|exact Hw].
  - destruct (isTranslating w); [exact Hw|].
    destruct (truthy_opt API_KEY); [constructor|exact Hw].
  - unfold accumulate.
    destruct (truthy (trim (or_empty text_))) eqn:Ht; [|exact Hw].
    unfold appendPhrase.
    destruct (_ || _); [|exact Hw].
    apply Forall_app. split; [exact Hw|].
    constructor; [|constructor]. apply trim_trimmed. exact Ht.
Qed.

Lemma reachable_phrases_trimmed w :
  reachable toLowerCase API_KEY w ->
  Forall (fun p => trimmed p = true) (translatedPhrases w).
Proof.
  induction 1 as [video canvas|e w Hw IH]; [constructor|].
  apply step_phrases_trimmed. exact IH.
Qed.

(** C4, as the code has it.  With a credential, [start] clears the error,
    the phrase sequence and the summary and sets the status to STARTING,
    all before the one call that asks for the camera, which is the last
    thing it does before it suspends.  Without a credential none of this
    happens: the guard stores the configuration message, sets the status
    to ERROR and returns, the phrases and the summary left as they were. *)
Theorem start_clears_only_past_the_credential_guard w :
  (truthy_opt API_KEY = true ->
     let (p, w') := startTranslationSession API_KEY w in
     p = Some AwaitGetUserMedia
     /\ error w' = None /\ translatedPhrases w' = [] /\ summary w' = None
     /\ status w' = STARTING
     /\ effects w' = effects w ++ [GetUserMedia])
  /\ (truthy_opt API_KEY = false ->
        let (p, w') := startTranslationSession API_KEY w in
        p = None
        /\ error w' = Some MSG_NO_KEY /\ status w' = ERROR
        /\ translatedPhrases w' = translatedPhrases w
        /\ summary w' = summary w
        /\ effects w' = effects w).
Proof.
  split; intros H.
  - rewrite (startTranslationSession_with_key w H). cbn. tauto.
  - rewrite (startTranslationSession_without_key w H). cbn. tauto.
Qed.

(** C5.  Without a credential [start] returns without suspending, with the
    status ERROR and the configuration message stored, and it has made no
    call at all: the log of calls is the one it found, so the camera was
    not asked for and the gateway not contacted. *)
Theorem start_without_credential_never_asks_for_camera w :
  truthy_opt API_KEY = false ->
  let (p, w') := startTranslationSession API_KEY w in
  p = None
  /\ status w' = ERROR
  /\ error w' = Some MSG_NO_KEY
  /\ effects w' = effects w
  /\ camera_requests (effects w') = camera_requests (effects w)
  /\ gateway_calls (effects w') = gateway_calls (effects w).
Proof.
  intros H. rewrite (startTranslationSession_without_key w H). cbn. tauto.
Qed.

(** C7.  With fewer than two phrases [handleSummarize] returns at once:
    it does not suspend, and the world it leaves is the world it found,
    every state cell and the log of calls included. *)
Theorem summarize_below_two_phrases_is_noop w response :
  (List.length (translatedPhrases w) < 2)%nat ->
  handleSummarize API_KEY w = (None, w)
  /\ exec (summarize API_KEY response) w = w
  /\ gateway_calls (effects (exec (summarize API_KEY response) w)) =
       gateway_calls (effects w).
Proof.
  intros H. apply Nat.ltb_lt in H.
  assert (E : handleSummarize API_KEY w = (None, w)).
  { unfold handleSummarize, bind, gets. cbv beta zeta.
    change (fst (translatedPhrases w, w)) with (translatedPhrases w).
    rewrite H. reflexivity. }
  assert (E' : exec (summarize API_KEY response) w = w).
  { unfold summarize, exec, bind. cbv beta zeta. rewrite E. reflexivity. }
  rewrite E'. repeat split; assumption.
Qed.

Lemma reachable_run es : forall w,
  reachable toLowerCase API_KEY w ->
  reachable toLowerCase API_KEY (run toLowerCase API_KEY es w).
Proof.
  induction es as [|e es IH]; intros w Hw; [exact Hw|].
  apply (IH (step toLowerCase API_KEY e w)). constructor. exact Hw.
Qed.

(** *** Stopping *)

Lemma stop_frame w :
  let w' := exec stopTranslationSession w in
  status w' = IDLE
  /\ isTranslating w' = false
  /\ translatedPhrases w' = translatedPhrases w
  /\ summary w' = summary w
  /\ error w' = error w
  /\ held_stream w' = None
  /\ effects w' = effects w ++ stop_calls w.
Proof.
  unfold exec. rewrite stopTranslationSession_run. cbn.
  repeat split; try reflexivity.
  unfold held_stream, stopped_video. cbn.
  destruct (videoRef w); reflexivity.
Qed.

Lemma stop_idle w :
  status w = IDLE -> isTranslating w = false ->
  captureInterval w = None -> held_stream w = None ->
  exec stopTranslationSession w = w.
Proof.
  unfold exec. rewrite stopTranslationSession_run.
  unfold stopped_video, stopped_interval, stop_calls, held_stream.
  destruct w as [it ph su isu st er [[so oc]|] cv ci a ef]; cbn;
    intros -> -> -> E; try rewrite E; rewrite app_nil_r; reflexivity.
Qed.

(** What the settling of a failed translation call does, from any world:
    both handlers log, the message is stored, [stop] runs, and the
    [finally] writes CAPTURING over the IDLE that [stop] had set. *)
Lemma failed_translation_run w reason :
  let w' := step toLowerCase API_KEY (EvTranslated (Rejected reason)) w in
  status w' = CAPTURING
  /\ error w' = Some MSG_TRANSLATE_FAILED
  /\ isTranslating w' = false
  /\ held_stream w' = None
  /\ translatedPhrases w' = translatedPhrases w
  /\ effects w' =
       effects w
       ++ [ConsoleError (js "Error calling Gemini API:");
           ConsoleError (js "Gemini API Error:")]
       ++ stop_calls w.
Proof.
  run_act. repeat split; try reflexivity.
  - unfold held_stream, stopped_video. cbn. destruct (videoRef w); reflexivity.
  - unfold stop_calls, held_stream. cbn.
    rewrite <- !app_assoc. reflexivity.
Qed.

(** C6.  In a world the component can reach, with the status IDLE, no
    timer handle and no stream bound, [stop] gives back the world it
    found: every state cell as it was and not one call added to the log
    (no timer cleared, no track stopped); so does a second [stop]. *)
Theorem stop_when_idle_changes_nothing w :
  reachable toLowerCase API_KEY w ->
  status w = IDLE ->
  captureInterval w = None ->
  held_stream w = None ->
  exec stopTranslationSession w = w
  /\ exec stopTranslationSession (exec stopTranslationSession w) = w.
Proof.
  intros Hr Hs Hi Hv.
  assert (E : exec stopTranslationSession w = w)
    by (apply stop_idle; auto using reachable_idle_inactive).
  rewrite !E. split; reflexivity.
Qed.

(** C9.  From a reachable world with the video element mounted and a
    credential configured: once the camera is granted and the video can
    play, the timer handle is stored and the calls made are the camera
    request, [play] and one [setInterval] of 6000 ms; and no timer in the
    whole log, this session's or an earlier one's, has another period. *)
Theorem capture_timer_period_is_6000 w stream id :
  reachable toLowerCase API_KEY w ->
  truthy_opt API_KEY = true ->
  videoRef w <> None ->
  let w' := run toLowerCase API_KEY
              [EvStart; EvCamera (Fulfilled stream); EvCanPlay id] w in
  captureInterval w' = Some id
  /\ effects w' = effects w ++ [GetUserMedia; VideoPlay; SetInterval id 6000]
  /\ (forall id' ms, In (SetInterval id' ms) (effects w') -> ms = 6000).
Proof.
  intros Hr Hk Hv w'.
  assert (Hr' : reachable toLowerCase API_KEY w')
    by (apply reachable_run; exact Hr).
  assert (E : w' =
              mkWorld true [] None (isSummarizing w) STARTING None
                (Some (mkVideo (Some stream) true)) (canvasRef w) (Some id)
                (ai w)
                (effects w ++ [GetUserMedia; VideoPlay; SetInterval id 6000])).
  { subst w'. unfold run. cbn [fold_left].
    assert (E1 : step toLowerCase API_KEY EvStart w =
                 snd (startTranslationSession API_KEY w)) by reflexivity.
    rewrite E1, (startTranslationSession_with_key w Hk). cbn [snd].
    destruct (videoRef w) as [v|]; [clear Hv|congruence].
    unfold_act. cbn. rewrite <- !app_assoc. reflexivity. }
  split; [|split].
  - rewrite E. reflexivity.
  - rewrite E. reflexivity.
  - intros id' ms Hin.
    pose proof (reachable_period_ok w' Hr') as H.
    rewrite Forall_forall in H. exact (H _ Hin).
Qed.


End Commands.

Lemma start_clears_only_past_the_credential_guard_witness :
  truthy_opt Sample.KEY = true
  /\ truthy_opt None = false
  /\ status (exec (startTranslationSession Sample.KEY) Sample.mounted)
     = STARTING
  /\ status (exec (startTranslationSession None) Sample.mounted) = ERROR.
Proof.
  split; [reflexivity|]. split; [reflexivity|]. split.
  - pose proof (proj1 (start_clears_only_past_the_credential_guard
                         Sample.KEY Sample.mounted) eq_refl) as H.
    unfold exec.
    destruct (startTranslationSession Sample.KEY Sample.mounted) as [p w'].
    apply H.
  - pose proof (proj2 (start_clears_only_past_the_credential_guard
                         None Sample.mounted) eq_refl) as H.
    unfold exec.
    destruct (startTranslationSession None Sample.mounted) as [p w'].
    apply H.
Defined.

(** C4 as it is written fails where no credential is configured.  From
    the idle component at its first render the status becomes ERROR, never
    STARTING, and an error is stored, not cleared; and from an idle world
    that still shows the phrases and the summary of an earlier session,
    both stay. *)
Lemma start_without_credential_counterexample :
  (let w := Sample.mounted in
   let w' := exec (startTranslationSession None) w in
   status w = IDLE /\ status w' <> STARTING /\ error w' <> None)
  /\ (let w := Sample.finished in
      let w' := exec (startTranslationSession None) w in
      status w = IDLE
      /\ translatedPhrases w' <> [] /\ summary w' <> None).
Proof.
  vm_compute. split; [split; [reflexivity|split; discriminate]|].
  split; [reflexivity|split; discriminate].
Qed.

Lemma start_without_credential_never_asks_for_camera_witness :
  truthy_opt None = false
  /\ effects (exec (startTranslationSession None) Sample.mounted) = [].
Proof.
  split; [reflexivity|].
  pose proof (start_without_credential_never_asks_for_camera
                None Sample.mounted eq_refl) as H.
  unfold exec.
  destruct (startTranslationSession None Sample.mounted) as [p w'].
  destruct H as (_ & _ & _ & H & _). exact H.
Defined.

Lemma summarize_below_two_phrases_is_noop_witness :
  (List.length (translatedPhrases Sample.mounted) < 2)%nat
  /\ handleSummarize Sample.KEY Sample.mounted = (None, Sample.mounted).
Proof.
  split; [simpl; lia|].
  apply (summarize_below_two_phrases_is_noop Sample.KEY Sample.mounted
           (Rejected Sample.gateway_down)).
  simpl; lia.
Defined.

Lemma reachable_sample es :
  reachable ascii_toLowerCase Sample.KEY
    (run ascii_toLowerCase Sample.KEY es Sample.mounted).
Proof. apply reachable_run. apply reachable_init. Qed.

(** C2.  A live session with one camera track and the timer armed; its
    tick sends the frame and the gateway call fails.  The message is
    stored, [stop] has run (timer cleared, the track stopped once, no
    stream bound, the session inactive), and yet the status the tick
    leaves is CAPTURING: the [finally] of the callback writes it after
    [stop] has written IDLE. *)
Theorem failed_tick_leaves_status_CAPTURING :
  let w := Sample.live in
  let w' := exec (tick ascii_toLowerCase Sample.KEY Sample.frame
                    (Rejected Sample.gateway_down)) w in
  (isTranslating w = true /\ held_stream w = Some [1]
   /\ captureInterval w = Some 1)
  /\ error w' = Some MSG_TRANSLATE_FAILED
  /\ isTranslating w' = false
  /\ held_stream w' = None
  /\ captureInterval w' = None
  /\ times_stopped 1 (effects w') = 1%nat
  /\ status w' = CAPTURING
  /\ status w' <> IDLE.
Proof. vm_compute. repeat split; discriminate. Qed.

(** C3 as it is written fails: a stored summary does not survive a failed
    summarization. *)
Lemma failed_summarize_counterexample :
  let w := Sample.summarized in
  let w' := exec (summarize Sample.KEY (Rejected Sample.gateway_down)) w in
  summary w = Some (js "Halo, selamat.")
  /\ error w' = Some MSG_SUMMARY_FAILED
  /\ summary w' <> summary w.
Proof. vm_compute. repeat split; discriminate. Qed.

Lemma stop_when_idle_changes_nothing_witness :
  status Sample.stopped = IDLE
  /\ captureInterval Sample.stopped = None
  /\ held_stream Sample.stopped = None
  /\ exec stopTranslationSession Sample.stopped = Sample.stopped.
Proof.
  assert (H1 : status Sample.stopped = IDLE) by (vm_compute; reflexivity).
  assert (H2 : captureInterval Sample.stopped = None)
    by (vm_compute; reflexivity).
  assert (H3 : held_stream Sample.stopped = None) by (vm_compute; reflexivity).
  split; [exact H1|]. split; [exact H2|]. split; [exact H3|].
  exact (proj1 (stop_when_idle_changes_nothing ascii_toLowerCase Sample.KEY
                  Sample.stopped
                  (reachable_sample (EvStart :: Sample.halo_session ++ [EvStop]))
                  H1 H2 H3)).
Defined.

Lemma capture_timer_period_is_6000_witness :
  truthy_opt Sample.KEY = true
  /\ videoRef Sample.mounted <> None
  /\ captureInterval
       (run ascii_toLowerCase Sample.KEY
          [EvStart; EvCamera (Fulfilled Sample.camera); EvCanPlay 1]
          Sample.mounted) = Some 1.
Proof.
  assert (Hk : truthy_opt Sample.KEY = true) by reflexivity.
  assert (Hv : videoRef Sample.mounted <> None) by (vm_compute; discriminate).
  split; [exact Hk|]. split; [exact Hv|].
  exact (proj1 (capture_timer_period_is_6000 ascii_toLowerCase Sample.KEY
                  Sample.mounted Sample.camera 1
                  (reachable_init _ _ (Some tt) (Some (mkCanvas true)))
                  Hk Hv)).
Defined.


(** ** The result cache *)

(** X1.  What [setInCache] stored under a key is what [getFromCache]
    reads under it, whatever the cache held before. *)
Theorem cache_get_after_set key value c :
  getFromCache key (setInCache key value c) = Some value.
Proof.
  induction c as [|[k v] tl IH]; simpl.
  - rewrite (proj2 (jsstring_eqb_eq key key) eq_refl). reflexivity.
  - destruct (jsstring_eqb k key) eqn:E; simpl.
    + rewrite (proj2 (jsstring_eqb_eq key key) eq_refl). reflexivity.
    + rewrite E. exact IH.
Qed.

(** X2.  [setInCache] on one key leaves every other key as it reads:
    present with the same value, or absent. *)
Theorem cache_set_leaves_other_keys key value other c :
  key <> other ->
  getFromCache other (setInCache key value c) = getFromCache other c.
Proof.
  intros Hne. apply jsstring_eqb_neq in Hne.
  induction c as [|[k v] tl IH]; simpl.
  - rewrite Hne. reflexivity.
  - destruct (jsstring_eqb k key) eqn:E; simpl.
    + apply jsstring_eqb_eq in E. subst k. rewrite Hne. reflexivity.
    + rewrite IH. reflexivity.
Qed.

Lemma cache_set_leaves_other_keys_witness :
  js "a" <> js "b"
  /\ getFromCache (js "b")
       (setInCache (js "a") (js "1") (setInCache (js "b") (js "2") cache))
     = Some (js "2").
Proof.
  assert (H : js "a" <> js "b") by (vm_compute; discriminate).
  split; [exact H|].
  rewrite (cache_set_leaves_other_keys (js "a") (js "1") (js "b") _ H).
  vm_compute. reflexivity.
Defined.


(** ** The inference client *)

(** X4.  [getAI] keeps the client it created: once a call has succeeded,
    every later call succeeds too and changes nothing, whatever
    [process.env.API_KEY] reads by then. *)
Theorem getAI_keeps_its_client key1 key2 w u w1 :
  getAI key1 w = (Fulfilled u, w1) ->
  getAI key2 w1 = (Fulfilled tt, w1).
Proof.
  unfold getAI, bind, gets, ret, setAI. cbn.
  destruct (ai w) eqn:Ha; cbn.
  - intros H. injection H as _ <-. rewrite Ha. reflexivity.
  - destruct (truthy_opt key1); cbn; intros H; [|discriminate].
    injection H as _ <-. reflexivity.
Qed.

Lemma getAI_keeps_its_client_witness :
  getAI Sample.KEY Sample.mounted
  = (Fulfilled tt, snd (getAI Sample.KEY Sample.mounted))
  /\ getAI None (snd (getAI Sample.KEY Sample.mounted))
     = (Fulfilled tt, snd (getAI Sample.KEY Sample.mounted)).
Proof.
  assert (H : getAI Sample.KEY Sample.mounted
              = (Fulfilled tt, snd (getAI Sample.KEY Sample.mounted)))
    by reflexivity.
  split; [exact H|].
  exact (getAI_keeps_its_client Sample.KEY None Sample.mounted tt _ H).
Defined.

(** ** Counting calls *)

Lemma gateway_calls_app l1 l2 :
  gateway_calls (l1 ++ l2) = (gateway_calls l1 + gateway_calls l2)%nat.
Proof. unfold gateway_calls. rewrite filter_app, length_app. reflexivity. Qed.

Lemma camera_requests_app l1 l2 :
  camera_requests (l1 ++ l2) = (camera_requests l1 + camera_requests l2)%nat.
Proof. unfold camera_requests. rewrite filter_app, length_app. reflexivity. Qed.

Lemma times_stopped_app t l1 l2 :
  times_stopped t (l1 ++ l2) = (times_stopped t l1 + times_stopped t l2)%nat.
Proof. unfold times_stopped. rewrite filter_app, length_app. reflexivity. Qed.

Lemma stop_calls_internal w :
  gateway_calls (stop_calls w) = 0%nat /\ camera_requests (stop_calls w) = 0%nat.
Proof.
  unfold stop_calls. rewrite gateway_calls_app, camera_requests_app.
  assert (H : forall stream,
             gateway_calls (List.map TrackStop stream) = 0%nat
             /\ camera_requests (List.map TrackStop stream) = 0%nat)
    by (induction stream; simpl; auto).
  destruct (captureInterval w) as [id|]; [destruct (truthy_num id)|];
    (destruct (held_stream w) as [stream|];
     [destruct (H stream) as [-> ->]|]; split; reflexivity).
Qed.

#[local] Arguments gateway_calls : simpl never.
#[local] Arguments camera_requests : simpl never.

Ltac count_calls :=
  repeat rewrite gateway_calls_app in *;
  repeat rewrite camera_requests_app in *;
  repeat rewrite (proj1 (stop_calls_internal _)) in *;
  repeat rewrite (proj2 (stop_calls_internal _)) in *;
  unfold gateway_calls, camera_requests in *; cbn in *.

Section Traffic.

Variable toLowerCase : jsstring -> jsstring.
Variable API_KEY : option jsstring.

Lemma step_gateway_calls e w :
  (gateway_calls (effects (step toLowerCase API_KEY e w))
   <= gateway_calls (effects w) + gateway_tasks [e])%nat.
Proof.
  destruct e; run_act; count_calls; lia.
Qed.

Lemma step_camera_requests e w :
  (camera_requests (effects (step toLowerCase API_KEY e w))
   <= camera_requests (effects w) + start_tasks [e])%nat.
Proof.
  destruct e; run_act; count_calls; lia.
Qed.

(** X6.  The gateway is called at most once per firing of the timer and
    per summarize command, and by nothing else: along any tasks, the
    number of gateway calls grows by no more than the number of those
    tasks. *)
Theorem gateway_calls_bounded_by_ticks_and_summaries es w :
  (gateway_calls (effects (run toLowerCase API_KEY es w))
   <= gateway_calls (effects w) + gateway_tasks es)%nat.
Proof.
  revert w. induction es as [|e es IH]; intros w; [cbn; lia|].
  change (run toLowerCase API_KEY (e :: es) w)
    with (run toLowerCase API_KEY es (step toLowerCase API_KEY e w)).
  pose proof (IH (step toLowerCase API_KEY e w)) as H1.
  pose proof (step_gateway_calls e w) as H2.
  change (gateway_tasks (e :: es))
    with (gateway_tasks ([e] ++ es)).
  unfold gateway_tasks in *. rewrite filter_app, length_app. lia.
Qed.

(** X7.  The camera is asked for at most once per start command or press
    of the toggle button, and by nothing else. *)
Theorem camera_requests_bounded_by_starts es w :
  (camera_requests (effects (run toLowerCase API_KEY es w))
   <= camera_requests (effects w) + start_tasks es)%nat.
Proof.
  revert w. induction es as [|e es IH]; intros w; [cbn; lia|].
  change (run toLowerCase API_KEY (e :: es) w)
    with (run toLowerCase API_KEY es (step toLowerCase API_KEY e w)).
  pose proof (IH (step toLowerCase API_KEY e w)) as H1.
  pose proof (step_camera_requests e w) as H2.
  change (start_tasks (e :: es)) with (start_tasks ([e] ++ es)).
  unfold start_tasks in *. rewrite filter_app, length_app. lia.
Qed.

End Traffic.

(** ** Invariants of the status *)

(** Read the tests the code makes on negated conditions. *)
Ltac read_negb :=
  repeat match goal with
         | H : negb _ = true |- _ => apply negb_true_iff in H
         | H : negb _ = false |- _ => apply negb_false_iff in H
         end.

Section Status.

Variable toLowerCase : jsstring -> jsstring.
Variable API_KEY : option jsstring.

(** Without a credential the client is never created and no session is
    ever active. *)
Lemma step_without_credential e w :
  truthy_opt API_KEY = false ->
  ai w = false /\ isTranslating w = false ->
  ai (step toLowerCase API_KEY e w) = false
  /\ isTranslating (step toLowerCase API_KEY e w) = false.
Proof.
  intros Hk [Ha Ht]. destruct e; run_act; read_negb; split; congruence.
Qed.

Lemma reachable_without_credential w :
  truthy_opt API_KEY = false ->
  reachable toLowerCase API_KEY w ->
  ai w = false /\ isTranslating w = false.
Proof.
  intros Hk. induction 1 as [video canvas|e w Hw IH]; [split; reflexivity|].
  apply step_without_credential; assumption.
Qed.

Lemma step_quiet_without_credential e w :
  truthy_opt API_KEY = false ->
  ai w = false -> isTranslating w = false ->
  gateway_calls (effects (step toLowerCase API_KEY e w))
    = gateway_calls (effects w)
  /\ camera_requests (effects (step toLowerCase API_KEY e w))
     = camera_requests (effects w).
Proof.
  intros Hk Ha Ht. destruct e; run_act; read_negb; try congruence;
    count_calls; split; lia.
Qed.

(** X5.  Without a credential the component never reaches the outside:
    in every world it can be in, the camera was never asked for, the
    gateway never called, the client never created, and no session is
    active. *)
Theorem without_credential_nothing_leaves_the_page w :
  truthy_opt API_KEY = false ->
  reachable toLowerCase API_KEY w ->
  camera_requests (effects w) = 0%nat
  /\ gateway_calls (effects w) = 0%nat
  /\ ai w = false
  /\ isTranslating w = false.
Proof.
  intros Hk. induction 1 as [video canvas|e w Hw IH].
  - repeat split; reflexivity.
  - destruct IH as (Hc & Hg & Ha & Ht).
    destruct (step_quiet_without_credential e w Hk Ha Ht) as [Eg Ec].
    destruct (step_without_credential e w Hk (conj Ha Ht)) as [Ha' Ht'].
    rewrite Eg, Ec. auto.
Qed.

(** The status against the activity flag, one task on. *)
Lemma step_status_invariant e w :
  (truthy_opt API_KEY = false -> isTranslating w = false) ->
  (status w <> STOPPING
   /\ (status w = IDLE -> isTranslating w = false)
   /\ (status w = ERROR -> isTranslating w = false)
   /\ (status w = STARTING -> isTranslating w = true)) ->
  let w' := step toLowerCase API_KEY e w in
  status w' <> STOPPING
  /\ (status w' = IDLE -> isTranslating w' = false)
  /\ (status w' = ERROR -> isTranslating w' = false)
  /\ (status w' = STARTING -> isTranslating w' = true).
Proof.
  destruct e; run_act; read_negb; intros Hk (H1 & H2 & H3 & H4);
    repeat split; try congruence; intros; try congruence; auto.
Qed.

(** X8.  After every task the status is never STOPPING, which [stop] only
    passes through; IDLE and ERROR go with an inactive session, STARTING
    with an active one. *)
Theorem status_agrees_with_activity w :
  reachable toLowerCase API_KEY w ->
  status w <> STOPPING
  /\ (status w = IDLE -> isTranslating w = false)
  /\ (status w = ERROR -> isTranslating w = false)
  /\ (status w = STARTING -> isTranslating w = true).
Proof.
  intros Hr.
  assert (Hk : forall w, reachable toLowerCase API_KEY w ->
                 truthy_opt API_KEY = false -> isTranslating w = false)
    by (intros w0 H0 Hf; apply (reachable_without_credential w0 Hf H0)).
  induction Hr as [video canvas|e w Hw IH].
  - cbn. repeat split; congruence.
  - apply step_status_invariant; [exact (Hk w Hw)|exact IH].
Qed.

End Status.

Lemma without_credential_nothing_leaves_the_page_witness :
  truthy_opt None = false
  /\ camera_requests
       (effects (run ascii_toLowerCase None
                   (EvStart :: Sample.halo_session) Sample.mounted)) = 0%nat
  /\ gateway_calls
       (effects (run ascii_toLowerCase None
                   (EvStart :: Sample.halo_session) Sample.mounted)) = 0%nat.
Proof.
  assert (Hk : truthy_opt None = false) by reflexivity.
  pose proof (without_credential_nothing_leaves_the_page ascii_toLowerCase
                None _ Hk
                (reachable_run ascii_toLowerCase None
                   (EvStart :: Sample.halo_session) Sample.mounted
                   (reachable_init _ _ (Some tt) (Some (mkCanvas true)))))
    as (Hc & Hg & _).
  split; [exact Hk|]. split; [exact Hc|exact Hg].
Defined.

Lemma status_agrees_with_activity_witness :
  status Sample.stopped <> STOPPING
  /\ (status Sample.stopped = IDLE -> isTranslating Sample.stopped = false).
Proof.
  pose proof (status_agrees_with_activity ascii_toLowerCase Sample.KEY
                Sample.stopped
                (reachable_sample (EvStart :: Sample.halo_session ++ [EvStop])))
    as (H1 & H2 & _).
  split; [exact H1|exact H2].
Defined.

(** ** Starting *)

Section Starting.

Variable toLowerCase : jsstring -> jsstring.
Variable API_KEY : option jsstring.

(** X9.  When the camera request is rejected the start attempt ends with
    the status ERROR and the session inactive; the message is the
    permission one exactly when the thrown value is an [Error] named
    NotAllowedError, and the generic camera one otherwise.  Phrases,
    summary, the two elements and the timer handle are left alone, and
    the only call made is the console log. *)
Theorem camera_rejection_is_classified w err :
  let w' := step toLowerCase API_KEY (EvCamera (Rejected err)) w in
  status w' = ERROR
  /\ isTranslating w' = false
  /\ (error w' = Some MSG_CAMERA_DENIED \/ error w' = Some MSG_CAMERA_FAILED)
  /\ (error w' = Some MSG_CAMERA_DENIED <->
      instanceofError err = true /\ name err = js "NotAllowedError")
  /\ translatedPhrases w' = translatedPhrases w
  /\ summary w' = summary w
  /\ videoRef w' = videoRef w
  /\ captureInterval w' = captureInterval w
  /\ effects w' = effects w ++ [ConsoleError (js "Camera Error:")].
Proof.
  assert (Hd : MSG_CAMERA_DENIED <> MSG_CAMERA_FAILED)
    by (vm_compute; discriminate).
  unfold_act. cbn.
  assert (Hname : jsstring_eqb (name err) (js "NotAllowedError") = true <->
                  name err = js "NotAllowedError") by apply jsstring_eqb_eq.
  destruct (instanceofError err);
    destruct (jsstring_eqb (name err) (js "NotAllowedError")); cbn;
    (split; [reflexivity|]); (split; [reflexivity|]).
  - split; [left; reflexivity|]. split; [|repeat split; reflexivity].
    split; [intros _; split; [reflexivity|apply Hname; reflexivity]|reflexivity].
  - split; [right; reflexivity|]. split; [|repeat split; reflexivity].
    split; [intros E; congruence|].
    intros [_ E]. apply Hname in E. discriminate.
  - split; [right; reflexivity|]. split; [|repeat split; reflexivity].
    split; [intros E; congruence|]. intros [E _]. discriminate.
  - split; [right; reflexivity|]. split; [|repeat split; reflexivity].
    split; [intros E; congruence|]. intros [E _]. discriminate.
Qed.

Lemma step_settling e w :
  settling [e] = true ->
  status (step toLowerCase API_KEY e w) = status w
  /\ isTranslating (step toLowerCase API_KEY e w) = isTranslating w.
Proof.
  destruct e as [| | |[stream|err]|id| | | |]; try discriminate; intros _;
    run_act; split; reflexivity.
Qed.


End Starting.


(** ** Ticks *)

Section Ticks.

Variable toLowerCase : jsstring -> jsstring.
Variable API_KEY : option jsstring.

(** X11.  A firing of the timer that finds the video element or the canvas
    unmounted, or the canvas without a 2d context, does nothing at all:
    the callback returns without suspending and the world is the one it
    found (no status change, no gateway call). *)
Theorem tick_without_elements_does_nothing data w :
  videoRef w = None \/ canvasRef w = None
  \/ canvasRef w = Some (mkCanvas false) ->
  captureTick toLowerCase API_KEY data w = (None, w).
Proof.
  unfold captureTick, bind, gets, ret. cbn.
  intros [H|[H|H]]; rewrite H; [reflexivity| |].
  - destruct (videoRef w); reflexivity.
  - destruct (videoRef w); reflexivity.
Qed.

(** X12.  A tick that has both elements but no client and no credential
    to create one never reaches the gateway: [getAI] throws before the
    request is built, the tick stores the translation message and stops
    the session on the spot, and the callback returns without
    suspending.  The calls it makes are the console log and those of
    [stop]. *)
Theorem tick_without_client_stops_the_session data w :
  truthy_opt API_KEY = false ->
  ai w = false ->
  videoRef w <> None ->
  canvasRef w = Some (mkCanvas true) ->
  let (p, w') := captureTick toLowerCase API_KEY data w in
  p = None
  /\ error w' = Some MSG_TRANSLATE_FAILED
  /\ isTranslating w' = false
  /\ held_stream w' = None
  /\ translatedPhrases w' = translatedPhrases w
  /\ effects w' =
       effects w ++ [ConsoleError (js "Gemini API Error:")] ++ stop_calls w
  /\ gateway_calls (effects w') = gateway_calls (effects w).
Proof.
  intros Hk Ha Hv Hc.
  destruct w as [it ph su isu st er [v|] cv ci a ef]; [|cbn in Hv; congruence].
  cbn in Ha, Hc. subst a cv.
  unfold_act. cbn. rewrite Hk. cbn.
  rewrite stopTranslationSession_run. cbn.
  split; [reflexivity|]. split; [reflexivity|]. split; [reflexivity|].
  split; [unfold held_stream, stopped_video; reflexivity|].
  split; [reflexivity|]. split.
  - unfold stop_calls, held_stream. cbn. rewrite <- app_assoc. reflexivity.
  - rewrite !gateway_calls_app, (proj1 (stop_calls_internal _)).
    unfold gateway_calls at 2. cbn. lia.
Qed.

(** X16.  A translation that resolves after [stop] cannot bring the
    session back: no call is made, the stream stays unbound and the
    session inactive.  The result is still accumulated like any other,
    and the status the callback leaves is CAPTURING. *)
Theorem late_result_after_stop_touches_no_resource w text_ :
  let w1 := step toLowerCase API_KEY EvStop w in
  let w2 := step toLowerCase API_KEY (EvTranslated (Fulfilled text_)) w1 in
  held_stream w2 = None
  /\ isTranslating w2 = false
  /\ captureInterval w2 = captureInterval w1
  /\ effects w2 = effects w1
  /\ translatedPhrases w2 =
       accumulate toLowerCase (translatedPhrases w) (trim (or_empty text_))
  /\ status w2 = CAPTURING.
Proof.
  intros w1 w2.
  pose proof (stop_frame w) as (_ & Ht & Hp & _ & _ & Hh & _).
  fold (step toLowerCase API_KEY EvStop w) in Ht, Hp, Hh. fold w1 in Ht, Hp, Hh.
  assert (E : videoRef w2 = videoRef w1 /\ isTranslating w2 = isTranslating w1
              /\ captureInterval w2 = captureInterval w1
              /\ effects w2 = effects w1 /\ status w2 = CAPTURING).
  { subst w2. generalize w1 as w0. intros w0. run_act; repeat split. }
  destruct E as (Ev & Et & Ec & Ee & Es).
  split; [unfold held_stream in *; rewrite Ev; exact Hh|].
  split; [congruence|]. split; [exact Ec|]. split; [exact Ee|].
  split; [|exact Es].
  subst w2. rewrite step_translatedPhrases, Hp. reflexivity.
Qed.

(** X17.  After a failed translation or a rejected camera request the
    session is inactive, so the next press of the toggle button starts
    afresh: with a credential it clears the error, the phrases and the
    summary, sets the status to STARTING and asks for the camera. *)
Theorem toggle_after_failure_starts_afresh w failure :
  truthy_opt API_KEY = true ->
  (exists reason, failure = EvTranslated (Rejected reason))
  \/ (exists err, failure = EvCamera (Rejected err)) ->
  let w1 := step toLowerCase API_KEY failure w in
  let w2 := step toLowerCase API_KEY EvToggle w1 in
  error w1 <> None
  /\ status w2 = STARTING
  /\ isTranslating w2 = true
  /\ error w2 = None
  /\ translatedPhrases w2 = []
  /\ summary w2 = None
  /\ effects w2 = effects w1 ++ [GetUserMedia].
Proof.
  intros Hk Hf w1 w2.
  assert (H1 : isTranslating w1 = false /\ error w1 <> None).
  { subst w1. destruct Hf as [[reason ->]|[err ->]].
    - pose proof (failed_translation_run toLowerCase API_KEY w reason)
        as (_ & He & Ht & _).
      cbv zeta in He, Ht. rewrite He. split; [exact Ht|discriminate].
    - unfold_act. cbn. split; [reflexivity|discriminate]. }
  destruct H1 as [Ht He]. split; [exact He|].
  subst w2. rewrite toggle_starts_or_stops, Ht.
  unfold step, exec. rewrite (startTranslationSession_with_key API_KEY w1 Hk).
  repeat split.
Qed.

End Ticks.

Lemma tick_without_elements_does_nothing_witness :
  (videoRef (initial_world None (Some (mkCanvas true))) = None
   \/ canvasRef (initial_world None (Some (mkCanvas true))) = None
   \/ canvasRef (initial_world None (Some (mkCanvas true)))
      = Some (mkCanvas false))
  /\ captureTick ascii_toLowerCase Sample.KEY Sample.frame
       (initial_world None (Some (mkCanvas true)))
     = (None, initial_world None (Some (mkCanvas true))).
Proof.
  assert (H : videoRef (initial_world None (Some (mkCanvas true))) = None
              \/ canvasRef (initial_world None (Some (mkCanvas true))) = None
              \/ canvasRef (initial_world None (Some (mkCanvas true)))
                 = Some (mkCanvas false))
    by (left; reflexivity).
  split; [exact H|].
  exact (tick_without_elements_does_nothing ascii_toLowerCase Sample.KEY
           Sample.frame _ H).
Defined.

Lemma tick_without_client_stops_the_session_witness :
  truthy_opt None = false
  /\ ai Sample.mounted = false
  /\ videoRef Sample.mounted <> None
  /\ canvasRef Sample.mounted = Some (mkCanvas true)
  /\ error (snd (captureTick ascii_toLowerCase None Sample.frame
                   Sample.mounted))
     = Some MSG_TRANSLATE_FAILED.
Proof.
  assert (Hk : truthy_opt None = false) by reflexivity.
  assert (Ha : ai Sample.mounted = false) by reflexivity.
  assert (Hv : videoRef Sample.mounted <> None) by (vm_compute; discriminate).
  assert (Hc : canvasRef Sample.mounted = Some (mkCanvas true)) by reflexivity.
  split; [exact Hk|]. split; [exact Ha|]. split; [exact Hv|].
  split; [exact Hc|].
  pose proof (tick_without_client_stops_the_session ascii_toLowerCase None
                Sample.frame Sample.mounted Hk Ha Hv Hc) as H.
  destruct (captureTick ascii_toLowerCase None Sample.frame Sample.mounted)
    as [p w'].
  exact (proj1 (proj2 H)).
Defined.

Lemma toggle_after_failure_starts_afresh_witness :
  truthy_opt Sample.KEY = true
  /\ status
       (step ascii_toLowerCase Sample.KEY EvToggle
          (step ascii_toLowerCase Sample.KEY
             (EvTranslated (Rejected Sample.gateway_down)) Sample.live))
     = STARTING.
Proof.
  assert (Hk : truthy_opt Sample.KEY = true) by reflexivity.
  split; [exact Hk|].
  exact (proj1 (proj2
    (toggle_after_failure_starts_afresh ascii_toLowerCase Sample.KEY
       Sample.live (EvTranslated (Rejected Sample.gateway_down)) Hk
       (or_introl (ex_intro _ Sample.gateway_down eq_refl))))).
Defined.

(** ** Releasing and summarizing *)

Lemma times_stopped_tracks t (stream : MediaStream) :
  times_stopped t (List.map TrackStop stream) = count_occ N.eq_dec stream t.
Proof.
  unfold times_stopped. induction stream as [|x tl IH]; [reflexivity|].
  cbn [List.map filter count_occ].
  destruct (N.eq_dec x t) as [->|Hne].
  - rewrite N.eqb_refl. cbn [List.length]. rewrite IH. reflexivity.
  - apply N.eqb_neq in Hne. rewrite Hne. exact IH.
Qed.

(** X14.  [stop] stops every track of the bound stream exactly once and no
    other track, and leaves no stream bound. *)
Theorem stop_stops_each_track_once w stream t :
  held_stream w = Some stream ->
  NoDup stream ->
  let w' := exec stopTranslationSession w in
  times_stopped t (effects w') =
    (times_stopped t (effects w) + if in_dec N.eq_dec t stream then 1 else 0)%nat
  /\ held_stream w' = None.
Proof.
  intros Hh Hnd w'.
  pose proof (stop_frame w) as (_ & _ & _ & _ & _ & Hnone & He).
  fold w' in Hnone, He. split; [|exact Hnone].
  rewrite He, times_stopped_app. f_equal.
  unfold stop_calls. rewrite Hh, times_stopped_app, times_stopped_tracks.
  assert (E0 : times_stopped t
                 match captureInterval w with
                 | Some id => if truthy_num id then [ClearInterval id] else []
                 | None => []
                 end = 0%nat)
    by (destruct (captureInterval w) as [id|];
        [destruct (truthy_num id)|]; reflexivity).
  rewrite E0. cbn [plus].
  destruct (in_dec N.eq_dec t stream) as [Hin|Hout].
  - apply (proj1 (NoDup_count_occ' N.eq_dec stream) Hnd). exact Hin.
  - apply count_occ_not_In. exact Hout.
Qed.

Lemma stop_stops_each_track_once_witness :
  held_stream Sample.live = Some [1]
  /\ NoDup [1]
  /\ times_stopped 1 (effects (exec stopTranslationSession Sample.live))
     = 1%nat.
Proof.
  assert (Hh : held_stream Sample.live = Some [1]) by (vm_compute; reflexivity).
  assert (Hn : NoDup [1]) by (constructor; [intros []|constructor]).
  split; [exact Hh|]. split; [exact Hn|].
  transitivity
    (times_stopped 1%N (effects Sample.live)
     + if in_dec N.eq_dec 1%N [1%N] then 1 else 0)%nat;
    [|vm_compute; reflexivity].
  exact (proj1 (stop_stops_each_track_once Sample.live [1] 1 Hh Hn)).
Defined.

Section Summarizing.

Variable toLowerCase : jsstring -> jsstring.
Variable API_KEY : option jsstring.

(** [getAI] when a client exists or can be created. *)
Lemma getAI_ready w :
  ai w = true \/ truthy_opt API_KEY = true ->
  getAI API_KEY w =
  (Fulfilled tt,
   mkWorld (isTranslating w) (translatedPhrases w) (summary w)
     (isSummarizing w) (status w) (error w) (videoRef w) (canvasRef w)
     (captureInterval w) true (effects w)).
Proof.
  unfold getAI, bind, gets, ret, setAI. cbn.
  destruct w as [it ph su isu st er v cv ci a ef]. cbn.
  destruct a; cbn; [reflexivity|].
  intros [H|H]; [discriminate|]. rewrite H. reflexivity.
Qed.

(** X15.  A summarize over two or more phrases, with a client at hand or
    a credential to create one, whose call is fulfilled: the gateway is
    called once, with the template filled with the phrases joined by
    single spaces; the summary becomes the trimmed text of the response
    (empty when the response has none), the stored error is cleared, the
    busy flag is back to false, and the capture session is untouched. *)
Theorem fulfilled_summarize_stores_trimmed_text w text_ :
  (2 <= List.length (translatedPhrases w))%nat ->
  ai w = true \/ truthy_opt API_KEY = true ->
  let w' := exec (summarize API_KEY (Fulfilled text_)) w in
  summary w' = Some (trim (or_empty text_))
  /\ error w' = None
  /\ isSummarizing w' = false
  /\ effects w' =
       effects w
       ++ [GenerateContent
             (TextRequest
                (SUMMARIZE_PROMPT (join [32] (translatedPhrases w))))]
  /\ translatedPhrases w' = translatedPhrases w
  /\ status w' = status w
  /\ isTranslating w' = isTranslating w
  /\ videoRef w' = videoRef w
  /\ captureInterval w' = captureInterval w.
Proof.
  intros Hlen Hai. apply Nat.ltb_ge in Hlen.
  unfold summarize, handleSummarize, summarizeText, exec, bind, gets.
  cbv beta zeta. cbn [fst snd]. rewrite Hlen.
  unfold setIsSummarizing, setError, setSummary. cbn [fst snd].
  rewrite getAI_ready by (cbn; exact Hai).
  cbn. repeat split.
Qed.

End Summarizing.

Lemma fulfilled_summarize_stores_trimmed_text_witness :
  (2 <= List.length (translatedPhrases Sample.summarized))%nat
  /\ (ai Sample.summarized = true \/ truthy_opt Sample.KEY = true)
  /\ summary
       (exec (summarize Sample.KEY (Fulfilled (Some (js " Halo. "))))
          Sample.summarized)
     = Some (trim (js " Halo. ")).
Proof.
  assert (H : (2 <= List.length (translatedPhrases Sample.summarized))%nat)
    by (vm_compute; lia).
  assert (Hk : ai Sample.summarized = true \/ truthy_opt Sample.KEY = true)
    by (right; reflexivity).
  split; [exact H|]. split; [exact Hk|].
  exact (proj1 (fulfilled_summarize_stores_trimmed_text Sample.KEY
                  Sample.summarized (Some (js " Halo. ")) H Hk)).
Defined.

(** ** Timers *)

Section Timers.

Variable toLowerCase : jsstring -> jsstring.
Variable API_KEY : option jsstring.

(** X13.  Every time the video becomes playable its handler arms a new
    timer and stores the new handle over the old one; [stop] clears the
    timer whose handle is stored, the last one armed, and no other. *)
Theorem stop_clears_only_the_stored_timer w v id1 id2 :
  videoRef w = Some v ->
  oncanplay_set v = true ->
  id2 <> 0 ->
  let w' := run toLowerCase API_KEY [EvCanPlay id1; EvCanPlay id2; EvStop] w in
  let added :=
    [VideoPlay; SetInterval id1 6000; VideoPlay; SetInterval id2 6000;
     ClearInterval id2]
    ++ match srcObject v with
       | Some stream => List.map TrackStop stream
       | None => []
       end in
  effects w' = effects w ++ added
  /\ captureInterval w' = None
  /\ (id1 <> id2 -> ~ In (ClearInterval id1) added).
Proof.
  intros Hv Hoc Hid w' added.
  assert (Ht : truthy_num id2 = true)
    by (unfold truthy_num; apply negb_true_iff, N.eqb_neq; exact Hid).
  destruct w as [it ph su isu st er vr cv ci a ef]. cbn in Hv. subst vr.
  destruct v as [so oc]. cbn in Hoc. subst oc.
  subst w' added. unfold run. cbn [fold_left].
  unfold step at 2 3. cbn. unfold exec, oncanplay, bind, gets, emit,
    setCaptureInterval. cbn.
  unfold step, exec. rewrite stopTranslationSession_run.
  unfold stopped_interval, stop_calls, held_stream. cbn. rewrite Ht.
  split; [|split].
  - rewrite <- !app_assoc. reflexivity.
  - reflexivity.
  - intros Hne Hin. cbn in Hin.
    destruct Hin as [H|[H|[H|[H|[H|H]]]]]; try discriminate.
    + injection H as H. congruence.
    + destruct so as [stream|]; [|exact H].
      apply in_map_iff in H. destruct H as (x & H & _). discriminate.
Qed.

End Timers.

Lemma stop_clears_only_the_stored_timer_witness :
  videoRef Sample.live = Some (mkVideo (Some [1]) true)
  /\ 8 <> 0
  /\ captureInterval
       (run ascii_toLowerCase Sample.KEY [EvCanPlay 7; EvCanPlay 8; EvStop]
          Sample.live) = None.
Proof.
  assert (Hv : videoRef Sample.live = Some (mkVideo (Some [1]) true))
    by (vm_compute; reflexivity).
  assert (Hid : 8 <> 0) by discriminate.
  split; [exact Hv|]. split; [exact Hid|].
  exact (proj1 (proj2
    (stop_clears_only_the_stored_timer ascii_toLowerCase Sample.KEY
       Sample.live _ 7 8 Hv eq_refl Hid))).
Defined.

(** ** The busy flag and the growth of the phrases *)

Section Growth.

Variable toLowerCase : jsstring -> jsstring.
Variable API_KEY : option jsstring.

(** X18.  While a summarization call is pending the busy flag is set, so
    the summarize button is rendered disabled; however the call settles,
    the flag is cleared again. *)
Theorem summarize_busy_while_pending w p w1 response :
  handleSummarize API_KEY w = (Some p, w1) ->
  isSummarizing w1 = true
  /\ summarize_disabled w1 = true
  /\ isSummarizing (step toLowerCase API_KEY (EvSummarized response) w1)
     = false.
Proof.
  intros H.
  assert (H1 : isSummarizing w1 = true).
  { revert H. unfold_act. cbn.
    destruct (Nat.ltb _ 2); cbn; [discriminate|].
    destruct (ai w); cbn;
      [|destruct (truthy_opt API_KEY); cbn; [|discriminate]];
      intros E; injection E as _ <-; reflexivity. }
  split; [exact H1|]. split.
  - unfold summarize_disabled. rewrite H1. apply orb_true_r.
  - destruct response; unfold_act; reflexivity.
Qed.

Lemma accumulate_grows prev r :
  exists l, accumulate toLowerCase prev r = prev ++ l
            /\ (List.length l <= 1)%nat.
Proof.
  unfold accumulate, appendPhrase.
  destruct (truthy r); [destruct (_ || _)|].
  - exists [r]. split; [reflexivity|cbn; lia].
  - exists []. split; [symmetry; apply app_nil_r|cbn; lia].
  - exists []. split; [symmetry; apply app_nil_r|cbn; lia].
Qed.

(** X19.  Within a session the phrase sequence only grows at its end:
    whatever tasks run, short of one that opens a new session, the
    phrases stored before are still there, in place and unchanged, and at
    most one phrase was added per delivered result. *)
Theorem phrases_only_grow_within_session es w :
  within_session es = true ->
  exists added,
    translatedPhrases (run toLowerCase API_KEY es w)
    = translatedPhrases w ++ added
    /\ (List.length added <= List.length (delivered es))%nat.
Proof.
  intros Hes. rewrite (run_translatedPhrases toLowerCase API_KEY es w Hes).
  generalize (delivered es) as R. generalize (translatedPhrases w) as prev.
  intros prev R. revert prev.
  induction R as [|r R IH]; intros prev.
  - exists []. split; [symmetry; apply app_nil_r|cbn; lia].
  - cbn [fold_left].
    destruct (accumulate_grows prev r) as (l1 & E1 & L1).
    destruct (IH (accumulate toLowerCase prev r)) as (l2 & E2 & L2).
    exists (l1 ++ l2). split.
    + rewrite E2, E1, app_assoc. reflexivity.
    + rewrite length_app. cbn [List.length]. lia.
Qed.

End Growth.

Lemma summarize_busy_while_pending_witness :
  handleSummarize Sample.KEY Sample.summarized
  = (Some AwaitSummarize, snd (handleSummarize Sample.KEY Sample.summarized))
  /\ summarize_disabled (snd (handleSummarize Sample.KEY Sample.summarized))
     = true.
Proof.
  assert (H : handleSummarize Sample.KEY Sample.summarized
              = (Some AwaitSummarize,
                 snd (handleSummarize Sample.KEY Sample.summarized)))
    by (vm_compute; reflexivity).
  split; [exact H|].
  exact (proj1 (proj2
    (summarize_busy_while_pending ascii_toLowerCase Sample.KEY
       Sample.summarized AwaitSummarize _ (Rejected Sample.gateway_down) H))).
Defined.

Lemma phrases_only_grow_within_session_witness :
  within_session Sample.halo_session = true
  /\ exists added,
       translatedPhrases
         (run ascii_toLowerCase Sample.KEY Sample.halo_session Sample.summarized)
       = translatedPhrases Sample.summarized ++ added
       /\ (List.length added <= List.length (delivered Sample.halo_session))%nat.
Proof.
  assert (H : within_session Sample.halo_session = true) by reflexivity.
  split; [exact H|].
  exact (phrases_only_grow_within_session ascii_toLowerCase Sample.KEY
           Sample.halo_session Sample.summarized H).
Defined.

(** ** The summary *)

Section Summary.

Variable toLowerCase : jsstring -> jsstring.
Variable API_KEY : option jsstring.

(** [handleSummarize] past its guard: the three setters have run when
    [summarizeText] is entered. *)
Lemma handleSummarize_run w :
  (2 <= List.length (translatedPhrases w))%nat ->
  handleSummarize API_KEY w =
  (let r := summarizeText API_KEY (translatedPhrases w)
              (mkWorld (isTranslating w) (translatedPhrases w) None true
                 (status w) None (videoRef w) (canvasRef w)
                 (captureInterval w) (ai w) (effects w)) in
   match fst r with
   | inl e => (None, exec (handleSummarize_resume (Rejected e)) (snd r))
   | inr _ => (Some AwaitSummarize, snd r)
   end).
Proof.
  intros H. apply Nat.ltb_ge in H.
  unfold handleSummarize, bind, gets. cbv beta zeta. cbn [fst snd].
  rewrite H. unfold setIsSummarizing, setError, setSummary. cbn [fst snd].
  unfold exec, ret.
  destruct (fst (summarizeText API_KEY (translatedPhrases w) _));
    reflexivity.
Qed.

(** [summarizeText] up to its [await], from any world. *)
Lemma summarizeText_run phrases w :
  summarizeText API_KEY phrases w =
  if ai w || truthy_opt API_KEY
  then (inr tt,
        mkWorld (isTranslating w) (translatedPhrases w) (summary w)
          (isSummarizing w) (status w) (error w) (videoRef w) (canvasRef w)
          (captureInterval w) true
          (effects w
           ++ [GenerateContent
                 (TextRequest (SUMMARIZE_PROMPT (join [32] phrases)))]))
  else (inl (Error_ (js "API_KEY is not set in environment variables.")), w).
Proof.
  unfold summarizeText, getAI, bind, gets, ret, setAI, emit.
  destruct w as [it ph su isu st er v cv ci a ef]. cbn.
  destruct a; cbn; [reflexivity|].
  destruct (truthy_opt API_KEY); reflexivity.
Qed.

(** C3, as the code has it.  A [summarize] over two or more phrases
    enters the gateway wrapper from a world in which the summary is
    already cleared (with the error cleared and the busy flag set), so at
    the [await], when the request is on its way, the stored summary is
    gone; the only call made so far is that request.  When the
    summarization then fails, the summarization message is stored, the
    summary stays empty and the busy flag is back to false.  The capture
    session is not touched at any point: status, activity flag, phrases,
    the two elements and the timer handle are as they were, and the calls
    made are the request (when a client exists or can be created) and the
    console logs, so no timer is cleared, no track stopped and no camera
    asked for. *)
Theorem failed_summarize_leaves_summary_empty w reason :
  (2 <= List.length (translatedPhrases w))%nat ->
  let cleared :=
    mkWorld (isTranslating w) (translatedPhrases w) None true (status w)
      None (videoRef w) (canvasRef w) (captureInterval w) (ai w)
      (effects w) in
  let request :=
    GenerateContent
      (TextRequest (SUMMARIZE_PROMPT (join [32] (translatedPhrases w)))) in
  let w' := exec (summarize API_KEY (Rejected reason)) w in
  handleSummarize API_KEY w =
    (let r := summarizeText API_KEY (translatedPhrases w) cleared in
     match fst r with
     | inl e => (None, exec (handleSummarize_resume (Rejected e)) (snd r))
     | inr _ => (Some AwaitSummarize, snd r)
     end)
  /\ (forall p w1,
        handleSummarize API_KEY w = (Some p, w1) ->
        summary w1 = None
        /\ error w1 = None
        /\ isSummarizing w1 = true
        /\ effects w1 = effects w ++ [request]
        /\ status w1 = status w
        /\ isTranslating w1 = isTranslating w
        /\ translatedPhrases w1 = translatedPhrases w
        /\ videoRef w1 = videoRef w
        /\ canvasRef w1 = canvasRef w
        /\ captureInterval w1 = captureInterval w)
  /\ error w' = Some MSG_SUMMARY_FAILED
  /\ summary w' = None
  /\ isSummarizing w' = false
  /\ status w' = status w
  /\ isTranslating w' = isTranslating w
  /\ translatedPhrases w' = translatedPhrases w
  /\ videoRef w' = videoRef w
  /\ canvasRef w' = canvasRef w
  /\ captureInterval w' = captureInterval w
  /\ effects w' =
       effects w
       ++ (if ai w || truthy_opt API_KEY
           then [request;
                 ConsoleError (js "Error calling Gemini API for summarization:");
                 ConsoleError (js "Summarization Error:")]
           else [ConsoleError (js "Summarization Error:")]).
Proof.
  intros Hlen cleared request w'.
  pose proof (handleSummarize_run w Hlen) as Hrun. fold cleared in Hrun.
  split; [exact Hrun|].
  pose proof (summarizeText_run (translatedPhrases w) cleared) as Hcall.
  change (ai cleared) with (ai w) in Hcall.
  unfold w', summary, exec, summarize, bind. cbv beta zeta.
  rewrite Hrun. cbv zeta. rewrite Hcall.
  destruct (ai w || truthy_opt API_KEY); cbn [fst snd].
  - split.
    + intros p w1 E. injection E as _ <-. cbn. repeat split.
    + unfold_act. cbn. repeat split.
      rewrite <- !app_assoc. reflexivity.
  - split.
    + intros p w1 E. discriminate.
    + unfold_act. cbn. repeat split.
Qed.

(** C8, as the code has it.  [stop] changes neither the phrase sequence
    nor the summary and ends with the status IDLE, so a summary obtained
    by a fulfilled summarization is still stored after [stop].  What each
    task does to the summary is fixed: a session opened with a credential
    clears it; the summarize command over two or more phrases clears it at
    once, before its call settles; a fulfilled summarization stores the
    trimmed text; nothing else changes it, a rejected summarization
    included, which therefore leaves it cleared. *)
Theorem summary_outlives_stop w :
  (translatedPhrases (exec stopTranslationSession w) = translatedPhrases w
   /\ summary (exec stopTranslationSession w) = summary w
   /\ status (exec stopTranslationSession w) = IDLE)
  /\ (forall text_,
        let w1 := step toLowerCase API_KEY (EvSummarized (Fulfilled text_)) w in
        let w2 := step toLowerCase API_KEY EvStop w1 in
        summary w1 = Some (trim (or_empty text_))
        /\ status w2 = IDLE
        /\ summary w2 = summary w1)
  /\ (forall text_,
        (2 <= List.length (translatedPhrases w))%nat ->
        ai w = true \/ truthy_opt API_KEY = true ->
        let w1 := exec (summarize API_KEY (Fulfilled text_)) w in
        let w2 := exec stopTranslationSession w1 in
        summary w1 = Some (trim (or_empty text_))
        /\ status w2 = IDLE
        /\ summary w2 = Some (trim (or_empty text_))
        /\ translatedPhrases w2 = translatedPhrases w)
  /\ (forall e,
        summary (step toLowerCase API_KEY e w) =
        match e with
        | EvStart => if truthy_opt API_KEY then None else summary w
        | EvToggle =>
            if isTranslating w then summary w
            else if truthy_opt API_KEY then None else summary w
        | EvSummarize =>
            if Nat.ltb (List.length (translatedPhrases w)) 2 then summary w
            else None
        | EvSummarized (Fulfilled text_) => Some (trim (or_empty text_))
        | _ => summary w
        end)
  /\ (forall e,
        summary (step toLowerCase API_KEY e w) <> summary w ->
        (opens_session e w = true /\ truthy_opt API_KEY = true
         /\ summary (step toLowerCase API_KEY e w) = None)
        \/ (e = EvSummarize
            /\ (2 <= List.length (translatedPhrases w))%nat
            /\ summary (step toLowerCase API_KEY e w) = None)
        \/ (exists text_,
              e = EvSummarized (Fulfilled text_)
              /\ summary (step toLowerCase API_KEY e w)
                 = Some (trim (or_empty text_)))).
Proof.
  split; [|split; [|split; [|split]]].
  - pose proof (stop_frame w) as H. cbv zeta in H. tauto.
  - intros text_ w1 w2. subst w2.
    pose proof (stop_frame w1) as H. cbv zeta in H.
    change (step toLowerCase API_KEY EvStop w1)
      with (exec stopTranslationSession w1).
    subst w1. rewrite step_summary in *. tauto.
  - intros text_ Hlen Hai w1 w2.
    assert (E1 : summary w1 = Some (trim (or_empty text_))
                 /\ translatedPhrases w1 = translatedPhrases w).
    { subst w1. unfold exec, summarize, bind. cbv beta zeta.
      rewrite (handleSummarize_run w Hlen). cbv zeta.
      rewrite summarizeText_run.
      replace (ai _ || truthy_opt API_KEY) with true
        by (symmetry; cbn [ai]; destruct Hai as [-> | ->];
            [reflexivity|apply orb_true_r]).
      cbn [fst snd]. unfold_act. cbn. split; reflexivity. }
    destruct E1 as [Es Ep].
    pose proof (stop_frame w1) as H. cbv zeta in H. fold w2 in H.
    destruct H as (Hst & _ & Hp & Hs & _).
    split; [exact Es|]. split; [exact Hst|].
    split; [rewrite Hs; exact Es|]. rewrite Hp. exact Ep.
  - intros e. apply step_summary.
  - intros e. rewrite step_summary.
    destruct e as [| | |r|id|d|r| |[text_|reason]]; intros H;
      try congruence.
    + destruct (truthy_opt API_KEY); [|congruence]. left. repeat split.
    + destruct (isTranslating w) eqn:T; [congruence|].
      destruct (truthy_opt API_KEY) eqn:K; [|congruence]. left.
      cbn. rewrite T. repeat split.
    + destruct (Nat.ltb (List.length (translatedPhrases w)) 2) eqn:L;
        [congruence|].
      right. left. apply Nat.ltb_ge in L. repeat split. exact L.
    + right. right. exists text_. split; reflexivity.
Qed.

End Summary.

Lemma failed_summarize_leaves_summary_empty_witness :
  (2 <= List.length (translatedPhrases Sample.summarized))%nat
  /\ handleSummarize Sample.KEY Sample.summarized
     = (Some AwaitSummarize,
        snd (handleSummarize Sample.KEY Sample.summarized))
  /\ summary (snd (handleSummarize Sample.KEY Sample.summarized)) = None
  /\ summary (exec (summarize Sample.KEY (Rejected Sample.gateway_down))
                Sample.summarized) = None.
Proof.
  assert (H : (2 <= List.length (translatedPhrases Sample.summarized))%nat)
    by (vm_compute; lia).
  assert (E : handleSummarize Sample.KEY Sample.summarized
              = (Some AwaitSummarize,
                 snd (handleSummarize Sample.KEY Sample.summarized)))
    by (vm_compute; reflexivity).
  pose proof (failed_summarize_leaves_summary_empty Sample.KEY
                Sample.summarized Sample.gateway_down H)
    as (_ & Hawait & _ & Hsum & _).
  split; [exact H|]. split; [exact E|].
  split; [exact (proj1 (Hawait _ _ E))|exact Hsum].
Defined.

(** C8 as it is written fails: on a stopped component that shows a
    summary, the summarize command clears the summary although no session
    is opened, and when its call is rejected nothing is written over it:
    the summary stays cleared, the component idle. *)
Lemma summary_cleared_without_new_session_counterexample :
  let w := Sample.finished in
  let w1 := step ascii_toLowerCase Sample.KEY EvSummarize w in
  let w2 := step ascii_toLowerCase Sample.KEY
              (EvSummarized (Rejected Sample.gateway_down)) w1 in
  summary w = Some (js "Halo, selamat.")
  /\ opens_session EvSummarize w = false
  /\ summary w1 = None
  /\ opens_session (EvSummarized (Rejected Sample.gateway_down)) w1 = false
  /\ summary w2 = None
  /\ status w2 = IDLE
  /\ isTranslating w2 = false.
Proof. vm_compute. repeat split. Qed.

Lemma summary_outlives_stop_witness :
  (2 <= List.length (translatedPhrases Sample.summarized))%nat
  /\ (ai Sample.summarized = true \/ truthy_opt Sample.KEY = true)
  /\ summary
       (exec stopTranslationSession
          (exec (summarize Sample.KEY (Fulfilled (Some (js " Halo. "))))
             Sample.summarized))
     = Some (trim (js " Halo. "))
  /\ summary (step ascii_toLowerCase Sample.KEY EvSummarize Sample.summarized)
     <> summary Sample.summarized
  /\ ((opens_session EvSummarize Sample.summarized = true
       /\ truthy_opt Sample.KEY = true
       /\ summary (step ascii_toLowerCase Sample.KEY EvSummarize
                     Sample.summarized) = None)
      \/ (EvSummarize = EvSummarize
          /\ (2 <= List.length (translatedPhrases Sample.summarized))%nat
          /\ summary (step ascii_toLowerCase Sample.KEY EvSummarize
                        Sample.summarized) = None)
      \/ (exists text_,
            EvSummarize = EvSummarized (Fulfilled text_)
            /\ summary (step ascii_toLowerCase Sample.KEY EvSummarize
                          Sample.summarized)
               = Some (trim (or_empty text_)))).
Proof.
  assert (H : (2 <= List.length (translatedPhrases Sample.summarized))%nat)
    by (vm_compute; lia).
  assert (Hk : ai Sample.summarized = true \/ truthy_opt Sample.KEY = true)
    by (right; reflexivity).
  assert (Hne : summary (step ascii_toLowerCase Sample.KEY EvSummarize
                           Sample.summarized)
                <> summary Sample.summarized)
    by (vm_compute; discriminate).
  pose proof (summary_outlives_stop ascii_toLowerCase Sample.KEY
                Sample.summarized) as (_ & _ & Hdone & _ & Honly).
  split; [exact H|]. split; [exact Hk|].
  split; [exact (proj1 (proj2 (proj2 (Hdone (Some (js " Halo. ")) H Hk))))|].
  split; [exact Hne|exact (Honly EvSummarize Hne)].
Defined.
